(** * CollapseTable: the column-fit solver and the per-table controller

    A shallow embedding of [collapsetable.js] (v1.2.0): the pure function
    [computeHiddenColumns], the [TableController] class and the part of the
    [CollapseTable] facade that attaches tables.

    Conventions of the embedding.
    - A JavaScript number that holds a pixel width, a priority or a column
      index is an integer of [Z].  Attribute values are taken after
      [Number(...)], and are integers when present.
    - [Array.prototype.sort] is the stable sort of ES2019; for a comparator
      that is a total preorder its result is unique, and it is computed here
      by a stable insertion sort.
    - An array of objects that is filtered, sorted and then mutated through
      the references it holds ([cols] in the solver) is a list, and a
      reference into it is a position of that list.
    - A method of the controller that can raise, or that calls one that
      can, is a function from the state of the controller to an outcome and
      the state it leaves behind, so that what was written before an
      exception stays written.
    - Header cells are shared between the header row and [columnsMeta], and
      live in an arena; body rows are addressed by section and position.
    - The style sheet injected into the document head, console warnings and
      the wiring of observers and listeners are outside the model; the
      controller records only whether they are attached. *)

From stdpp Require Import gmap list strings pretty sorting.

(** ** The column-fit algorithm *)

Module Solver.

Local Open Scope Z_scope.

(** One entry of [columnsMeta], as [_refit] passes it to the solver. *)
Record ColumnMeta := ColumnMeta_mk {
  index : Z;
  min : Z;
  priority : Z;
  lock : bool
}.

(** An entry of the solver's private copy [cols]: the four fields copied
    from the argument plus the mutable [hidden] flag. *)
Record Col := Col_mk {
  meta : ColumnMeta;
  hidden : bool
}.

#[global] Instance ColumnMeta_eq_dec : EqDecision ColumnMeta.
Proof. solve_decision. Defined.

(** [columnsMeta.map(c => ({index, min, priority, lock: !!c.lock, hidden: false}))] *)
Definition copyColumns (columnsMeta : list ColumnMeta) : list Col :=
  (fun c => Col_mk c false) <$> columnsMeta.

(** [cols.filter(c => !c.hidden).reduce((s, c) => s + c.min, 0)] *)
Definition sumMin (cols : list Col) : Z :=
  foldl (fun s c => s + min (meta c)) 0
        (List.filter (fun c => negb (hidden c)) cols).

(** A reference to an element of [cols]: its position and the object. *)
Definition Ref : Type := nat * Col.

Definition refs (cols : list Col) : list Ref := imap (fun i c => (i, c)) cols.

(** [c.hidden = b] through a reference *)
Definition setHidden (p : nat) (b : bool) (cols : list Col) : list Col :=
  alter (fun c => Col_mk (meta c) b) p cols.

(** The comparator [(a, b) => b.priority - a.priority || b.min - a.min]. *)
Definition worstFirst (a b : Col) : Z :=
  let d := priority (meta b) - priority (meta a) in
  if d =? 0 then min (meta b) - min (meta a) else d.

(** The comparator [(a, b) => a.priority - b.priority || a.min - b.min]. *)
Definition bestFirst (a b : Col) : Z :=
  let d := priority (meta a) - priority (meta b) in
  if d =? 0 then min (meta a) - min (meta b) else d.

(** Stable sort by a comparator: [x] stays before the elements that followed
    it unless the comparator puts it strictly after them. *)
Fixpoint insertBy (cmp : Col -> Col -> Z) (x : Ref) (l : list Ref) : list Ref :=
  match l with
  | [] => [x]
  | y :: l' => if cmp x.2 y.2 <=? 0 then x :: l else y :: insertBy cmp x l'
  end.

Definition sortBy (cmp : Col -> Col -> Z) (l : list Ref) : list Ref :=
  foldr (insertBy cmp) [] l.

(** [cols.filter(c => !c.hidden && !c.lock && c.index !== 0)] *)
Definition hideable (c : Col) : bool :=
  negb (hidden c) && negb (lock (meta c)) && negb (index (meta c) =? 0).

Definition candidates (cols : list Col) : list Ref :=
  List.filter (fun r => hideable r.2) (refs cols).

(** The first loop: hide the worst candidate until it fits.
    [guard] counts the iterations that are left. *)
Fixpoint shrink (guard : nat) (cols : list Col) (available : Z) : list Col :=
  if sumMin cols >? available then
    match guard with
    | O => cols
    | S guard' =>
        match head (sortBy worstFirst (candidates cols)) with
        | None => cols
        | Some candidate => shrink guard' (setHidden candidate.1 true cols) available
        end
    end
  else cols.

(** [cols.filter(c => c.hidden)] *)
Definition hiddenRefs (cols : list Col) : list Ref :=
  List.filter (fun r => hidden r.2) (refs cols).

(** The body of [for (const c of hidden)]: the pair is [(cols, changed)]. *)
Definition tryUnhide (available : Z) (st : list Col * bool) (c : Ref)
  : list Col * bool :=
  let cols1 := setHidden c.1 false st.1 in
  if sumMin cols1 <=? available then (cols1, true)
  else (setHidden c.1 true cols1, st.2).

(** One iteration of the second [while]: [changed = false], then the scan. *)
Definition growPass (cols : list Col) (available : Z) : list Col * bool :=
  foldl (tryUnhide available) (cols, false) (sortBy bestFirst (hiddenRefs cols)).

(** The second loop, entered with [changed = true]. *)
Fixpoint growBack (guard : nat) (cols : list Col) (available : Z) : list Col :=
  match guard with
  | O => cols
  | S guard' =>
      let '(cols', changed) := growPass cols available in
      if changed then growBack guard' cols' available else cols'
  end.

(** The state of [cols] when the function returns. *)
Definition finalCols (columnsMeta : list ColumnMeta) (available : Z) : list Col :=
  growBack 200 (shrink 200 (copyColumns columnsMeta) available) available.

(** [new Set(cols.filter(c => c.hidden).map(c => c.index))] *)
Definition hiddenIndices (cols : list Col) : list Z :=
  (fun c => index (meta c)) <$> List.filter hidden cols.

Definition computeHiddenColumns (columnsMeta : list ColumnMeta) (available : Z)
  : gset Z :=
  list_to_set (hiddenIndices (finalCols columnsMeta available)).

(** The quantity the specification speaks of: the sum of the minimum widths
    of the columns whose index is not in a hidden-set. *)
Definition survivingSum (columnsMeta : list ColumnMeta) (H : gset Z) : Z :=
  foldl (fun s c => s + min c) 0
        (List.filter (fun c => bool_decide (index c ∉ H)) columnsMeta).

(** A column the shrink loop may hide, read off the argument. *)
Definition hideableMeta (c : ColumnMeta) : bool :=
  negb (lock c) && negb (index c =? 0).

(** A hidden-set that names only unlocked columns other than the control
    column. *)
Definition onlyUnlocked (columnsMeta : list ColumnMeta) (H : gset Z) : Prop :=
  Forall (fun c => index c ∈ H -> lock c = false /\ index c ≠ 0) columnsMeta.

(** The columns of the scenarios of the specification. *)
Definition scenarioColumns : list ColumnMeta :=
  [ ColumnMeta_mk 0 46 1 true;
    ColumnMeta_mk 1 200 1 true;
    ColumnMeta_mk 2 160 2 false;
    ColumnMeta_mk 3 130 3 false;
    ColumnMeta_mk 4 120 4 false ].

(** *** Notions used to state the properties of the solver *)

(** The part of [sumMin] a column accounts for. *)
Definition contrib (c : Col) : Z := if hidden c then 0 else min (meta c).

Definition hideableCount (cols : list Col) : nat :=
  length (List.filter hideable cols).

Definition hiddenCount (cols : list Col) : nat :=
  length (List.filter hidden cols).

(** Every column marked hidden is unlocked and is not the control column. *)
Definition hiddenOk (cols : list Col) : Prop :=
  forall p c, cols !! p = Some c -> hidden c = true ->
    lock (meta c) = false /\ index (meta c) ≠ 0.

(** No hidden column can be shown again within [available]. *)
Definition minimalAt (available : Z) (cols : list Col) : Prop :=
  forall p c, cols !! p = Some c -> hidden c = true ->
    available < sumMin cols + min (meta c).

(** [cols'] has the columns of [cols], and marks hidden only columns that
    [cols] marks hidden. *)
Definition unhides (cols cols' : list Col) : Prop :=
  meta <$> cols' = meta <$> cols /\
  forall p c', cols' !! p = Some c' -> hidden c' = true ->
    exists c, cols !! p = Some c /\ hidden c = true.

(** The sum of the minimum widths of the columns that [P] selects. *)
Fixpoint sumOver (P : Col -> bool) (cols : list Col) : Z :=
  match cols with
  | [] => 0
  | c :: cols' => (if P c then min (meta c) else 0) + sumOver P cols'
  end.

(** A table of 201 data columns without priority attributes, each measured
    at the default 140px, behind the 46px control column. *)
Definition wideColumns : list ColumnMeta :=
  ColumnMeta_mk 0 46 1 true ::
  ((fun i => ColumnMeta_mk (Z.of_nat i) 140 (Z.of_nat i + 1) false) <$> seq 1 201).

End Solver.

(** ** The host document: tables, rows and cells *)

Module Dom.

(** The toggle [<button>] of a row: an element that matches
    [_toggleSelector]. *)
Record Button := Button_mk {
  aria_expanded : bool;          (* [getAttribute("aria-expanded") === "true"] *)
  aria_controls : string;
  btn_title : string;
  aria_label : string;
  btn_html : string * string;    (* icon, then the text of the [ctbl-vh] span *)
  btn_visibility : string        (* [style.visibility] *)
}.

(** A body cell. *)
Record Cell := Cell_mk {
  cell_control : bool;           (* carries every class of [classNames.control] *)
  cell_hide : bool;              (* carries [classNames.hide] *)
  cell_colSpan : Z;
  cell_rowSpan : Z;
  cell_text : string;            (* [textContent] *)
  cell_html : string;            (* [innerHTML] *)
  cell_toggle : option Button
}.

(** A child of the [detailsInner] region. *)
Inductive Item :=
| ItemNode (node : string)               (* a node the caller's renderer returned *)
| ItemHtml (html : string)               (* markup the caller's renderer returned *)
| ItemDetail (name value : string).      (* a default name and value pair *)

(** The [detailsInner] region of a details row. *)
Record Wrap := Wrap_mk {
  wrap_aria_label : string;
  wrap_items : list Item
}.

(** A [<tr>] of a body section. *)
Record Tr := Tr_mk {
  tr_details : bool;             (* carries [classNames.details] *)
  tr_hidden : bool;              (* the [hidden] attribute *)
  tr_id : string;
  tr_key_attr : option string;   (* [data-ctbl-key] *)
  tr_rowKey : option string;     (* its entry in the controller's [_rowKeyMap] *)
  tr_cells : list Cell;
  tr_wrap : option Wrap          (* first descendant with [classNames.detailsInner] *)
}.

(** A header cell.  [th_priority] and [th_min] are the attributes after
    [Number(...)]; an absent or empty attribute is [None]. *)
Record Th := Th_mk {
  th_control : bool;
  th_hide : bool;
  th_colSpan : Z;
  th_rowSpan : Z;
  th_aria_hidden : bool;
  th_scope : string;
  th_priority : option Z;
  th_min : option Z;
  th_label : option string;
  th_text : string;
  th_width : Z                   (* [clientWidth || offsetWidth || 0], rounded up *)
}.

(** What the host reports about the layout when asked. *)
Record Layout := Layout_mk {
  wrapper_clientWidth : Z;
  table_clientWidth : Z;
  window_innerWidth : Z;
  wrapper_visible : bool;
  table_visible : bool
}.

(** A [<table>].  Header cells are elements that the controller keeps
    references to ([col.th]), so they live in an arena [t_cells] and rows of
    the header hold positions of the arena.  [t_thead] is [None] when the
    table has no [<thead>]. *)
Record Table := Table_mk {
  t_id : string;
  t_root : bool;                 (* carries [classNames.root] *)
  t_style_width : string;
  t_style_tableLayout : string;
  t_ths : list Th;
  t_thead : option (list (list nat));
  t_bodies : list (list Tr);
  t_layout : Layout
}.

#[global] Instance Button_eq_dec : EqDecision Button.
Proof. solve_decision. Defined.
#[global] Instance Cell_eq_dec : EqDecision Cell.
Proof. solve_decision. Defined.
#[global] Instance Item_eq_dec : EqDecision Item.
Proof. solve_decision. Defined.
#[global] Instance Wrap_eq_dec : EqDecision Wrap.
Proof. solve_decision. Defined.
#[global] Instance Tr_eq_dec : EqDecision Tr.
Proof. solve_decision. Defined.
#[global] Instance Th_eq_dec : EqDecision Th.
Proof. solve_decision. Defined.
#[global] Instance Layout_eq_dec : EqDecision Layout.
Proof. solve_decision. Defined.
#[global] Instance Table_eq_dec : EqDecision Table.
Proof. solve_decision. Defined.

(** [thead.rows[0].cells], empty when there is no such row. *)
Definition headerCells (t : Table) : list nat :=
  match t_thead t with
  | Some (row :: _) => row
  | _ => []
  end.

(** A data row of the table: body section and position within [tb.rows]. *)
Definition RowRef : Type := nat * nat.

Definition rowAt (t : Table) (ref : RowRef) : option Tr :=
  t_bodies t !! ref.1 ≫= fun rows => rows !! ref.2.

(** [s.trim()] *)
Fixpoint dropSpaces (s : string) : string :=
  match s with
  | String a s' => if Ascii.is_space a then dropSpaces s' else s
  | EmptyString => EmptyString
  end.

Definition trim (s : string) : string :=
  String.rev (dropSpaces (String.rev (dropSpaces s))).

End Dom.

(** ** The per-table controller *)

Module Controller.
Import Dom.

(** What a caller-supplied [detailsRender] can do when it is called. *)
Inductive RenderResult :=
| RenderNode (node : string)     (* returns a DOM node *)
| RenderString (html : string)   (* returns a string *)
| RenderOther                    (* returns anything else, [undefined] included *)
| RenderThrows (error : string). (* raises *)

(** An entry of [this.columnsMeta]; [th] refers to the header cell. *)
Record ColumnInfo := ColumnInfo_mk {
  index : Z;
  th : nat;
  priority : Z;
  min : Z;
  lock : bool
}.

#[global] Instance ColumnInfo_eq_dec : EqDecision ColumnInfo.
Proof. solve_decision. Defined.

Definition Renderer : Type := Tr -> list ColumnInfo -> list Cell -> RenderResult.

Record Options := Options_mk {
  controlWidth : Z;
  minWidthDefault : Z;
  tableLayout : string;
  deferWhenHidden : bool;
  icons_expand : string;
  icons_collapse : string;
  strings_toggleTitle : string;
  strings_show : string;
  strings_hide : string;
  detailsRender : option Renderer
}.

(** The defaults of the library, without a custom renderer. *)
Definition defaults : Options :=
  Options_mk 46 140 "auto" true "+" "−" "Show more" "Show details" "Hide details" None.

(** What goes through [this.emit]. *)
Inductive Event :=
| EvExpand (row : RowRef)
| EvCollapse (row : RowRef)
| EvToggle (row : RowRef) (expanded : bool)
| EvRefit (initial anyHidden : bool)
| EvDestroy.

#[global] Instance Event_eq_dec : EqDecision Event.
Proof. solve_decision. Defined.

(** The fields of a [TableController].  [table] is the DOM table it is bound
    to; [wrapper] tells whether [this.wrapper] has been assigned; [emitted]
    lists the events emitted so far, oldest first. *)
Record TableController := TableController_mk {
  table : Table;
  options : Options;
  _rowKeySeq : nat;
  _unsupportedSpan : bool;
  _destroyed : bool;
  _insertedControl : bool;
  _uid : nat;
  columnsMeta : list ColumnInfo;
  wrapper : bool;
  _listening : bool;
  _observing : bool;
  emitted : list Event
}.

(** *** Field updates *)

Definition setTable (f : Table -> Table) (c : TableController) : TableController :=
  TableController_mk (f (table c)) (options c) (_rowKeySeq c) (_unsupportedSpan c)
    (_destroyed c) (_insertedControl c) (_uid c) (columnsMeta c) (wrapper c)
    (_listening c) (_observing c) (emitted c).

Definition setOptions (o : Options) (c : TableController) : TableController :=
  TableController_mk (table c) o (_rowKeySeq c) (_unsupportedSpan c)
    (_destroyed c) (_insertedControl c) (_uid c) (columnsMeta c) (wrapper c)
    (_listening c) (_observing c) (emitted c).

Definition setRowKeySeq (n : nat) (c : TableController) : TableController :=
  TableController_mk (table c) (options c) n (_unsupportedSpan c)
    (_destroyed c) (_insertedControl c) (_uid c) (columnsMeta c) (wrapper c)
    (_listening c) (_observing c) (emitted c).

Definition setUnsupportedSpan (b : bool) (c : TableController) : TableController :=
  TableController_mk (table c) (options c) (_rowKeySeq c) b
    (_destroyed c) (_insertedControl c) (_uid c) (columnsMeta c) (wrapper c)
    (_listening c) (_observing c) (emitted c).

Definition setDestroyed (b : bool) (c : TableController) : TableController :=
  TableController_mk (table c) (options c) (_rowKeySeq c) (_unsupportedSpan c)
    b (_insertedControl c) (_uid c) (columnsMeta c) (wrapper c)
    (_listening c) (_observing c) (emitted c).

Definition setInsertedControl (b : bool) (c : TableController) : TableController :=
  TableController_mk (table c) (options c) (_rowKeySeq c) (_unsupportedSpan c)
    (_destroyed c) b (_uid c) (columnsMeta c) (wrapper c)
    (_listening c) (_observing c) (emitted c).

Definition setColumnsMeta (cm : list ColumnInfo) (c : TableController) : TableController :=
  TableController_mk (table c) (options c) (_rowKeySeq c) (_unsupportedSpan c)
    (_destroyed c) (_insertedControl c) (_uid c) cm (wrapper c)
    (_listening c) (_observing c) (emitted c).

(** Handlers and observers: attached or not. *)
Definition setWiring (w l o : bool) (c : TableController) : TableController :=
  TableController_mk (table c) (options c) (_rowKeySeq c) (_unsupportedSpan c)
    (_destroyed c) (_insertedControl c) (_uid c) (columnsMeta c) w l o (emitted c).

Definition pushEvent (e : Event) (c : TableController) : TableController :=
  TableController_mk (table c) (options c) (_rowKeySeq c) (_unsupportedSpan c)
    (_destroyed c) (_insertedControl c) (_uid c) (columnsMeta c) (wrapper c)
    (_listening c) (_observing c) (emitted c ++ [e]).

Definition setRoot (b : bool) (t : Table) : Table :=
  Table_mk (t_id t) b (t_style_width t) (t_style_tableLayout t) (t_ths t)
    (t_thead t) (t_bodies t) (t_layout t).

Definition setStyleWidth (w : string) (t : Table) : Table :=
  Table_mk (t_id t) (t_root t) w (t_style_tableLayout t) (t_ths t)
    (t_thead t) (t_bodies t) (t_layout t).

Definition setStyleTableLayout (l : string) (t : Table) : Table :=
  Table_mk (t_id t) (t_root t) (t_style_width t) l (t_ths t)
    (t_thead t) (t_bodies t) (t_layout t).

Definition setThs (f : list Th -> list Th) (t : Table) : Table :=
  Table_mk (t_id t) (t_root t) (t_style_width t) (t_style_tableLayout t)
    (f (t_ths t)) (t_thead t) (t_bodies t) (t_layout t).

(** Replaces the cells of [thead.rows[0]]. *)
Definition setHeaderCells (f : list nat -> list nat) (t : Table) : Table :=
  Table_mk (t_id t) (t_root t) (t_style_width t) (t_style_tableLayout t) (t_ths t)
    (match t_thead t with
     | Some (row :: rows) => Some (f row :: rows)
     | other => other
     end)
    (t_bodies t) (t_layout t).

Definition setBodies (f : list (list Tr) -> list (list Tr)) (t : Table) : Table :=
  Table_mk (t_id t) (t_root t) (t_style_width t) (t_style_tableLayout t) (t_ths t)
    (t_thead t) (f (t_bodies t)) (t_layout t).

Definition alterRow (ref : RowRef) (f : Tr -> Tr) (t : Table) : Table :=
  setBodies (alter (alter f ref.2) ref.1) t.

Definition mapRows (f : Tr -> Tr) (t : Table) : Table :=
  setBodies (fun bodies => (fun rows : list Tr => f <$> rows) <$> bodies) t.

Definition setCells (f : list Cell -> list Cell) (r : Tr) : Tr :=
  Tr_mk (tr_details r) (tr_hidden r) (tr_id r) (tr_key_attr r) (tr_rowKey r)
    (f (tr_cells r)) (tr_wrap r).

Definition setTrHidden (b : bool) (r : Tr) : Tr :=
  Tr_mk (tr_details r) b (tr_id r) (tr_key_attr r) (tr_rowKey r)
    (tr_cells r) (tr_wrap r).

Definition setRowKey (k : string) (r : Tr) : Tr :=
  Tr_mk (tr_details r) (tr_hidden r) (tr_id r) (tr_key_attr r) (Some k)
    (tr_cells r) (tr_wrap r).

Definition setWrap (w : Wrap) (r : Tr) : Tr :=
  Tr_mk (tr_details r) (tr_hidden r) (tr_id r) (tr_key_attr r) (tr_rowKey r)
    (tr_cells r) (Some w).

Definition setCellHide (b : bool) (c : Cell) : Cell :=
  Cell_mk (cell_control c) b (cell_colSpan c) (cell_rowSpan c) (cell_text c)
    (cell_html c) (cell_toggle c).

Definition setCellColSpan (n : Z) (c : Cell) : Cell :=
  Cell_mk (cell_control c) (cell_hide c) n (cell_rowSpan c) (cell_text c)
    (cell_html c) (cell_toggle c).

Definition setCellToggle (b : option Button) (c : Cell) : Cell :=
  Cell_mk (cell_control c) (cell_hide c) (cell_colSpan c) (cell_rowSpan c)
    (cell_text c) (cell_html c) b.

Definition setThHide (b : bool) (h : Th) : Th :=
  Th_mk (th_control h) b (th_colSpan h) (th_rowSpan h) (th_aria_hidden h)
    (th_scope h) (th_priority h) (th_min h) (th_label h) (th_text h) (th_width h).

Definition setThAria (h : Th) : Th :=
  Th_mk (th_control h) (th_hide h) (th_colSpan h) (th_rowSpan h) true
    "col" (th_priority h) (th_min h) (th_label h) (th_text h) (th_width h).

(** [row.cells[i]] for a number [i] *)
Definition cellAt (cells : list Cell) (i : Z) : option Cell :=
  if (0 <=? i)%Z then cells !! Z.to_nat i else None.

Definition alterCell (i : Z) (f : Cell -> Cell) (cells : list Cell) : list Cell :=
  if (0 <=? i)%Z then alter f (Z.to_nat i) cells else cells.

(** *** Methods run in a state that survives an exception *)

Inductive Outcome (A : Type) :=
| Returns (a : A)
| Throws (error : string).
Arguments Returns {A} a.
Arguments Throws {A} error.

Definition M (A : Type) : Type := TableController -> Outcome A * TableController.

Definition ret {A} (a : A) : M A := fun st => (Returns a, st).

Definition throw {A} (error : string) : M A := fun st => (Throws error, st).

Definition bind {A B} (m : M A) (k : A -> M B) : M B :=
  fun st =>
    match m st with
    | (Returns a, st') => k a st'
    | (Throws e, st') => (Throws e, st')
    end.

Definition get : M TableController := fun st => (Returns st, st).

Definition modify (f : TableController -> TableController) : M unit :=
  fun st => (Returns tt, f st).

Definition emit (e : Event) : M unit := modify (pushEvent e).

Notation "'let!' x ':=' m 'in' k" := (bind m (fun x => k))
  (at level 10, x name, m at level 100, k at level 200, only parsing).

Fixpoint forEach {X} (l : list X) (body : X -> M unit) : M unit :=
  match l with
  | [] => ret tt
  | x :: l' => let! _ := body x in forEach l' body
  end.


(** *** Reading the table *)

Definition headerLength (st : TableController) : Z :=
  Z.of_nat (length (headerCells (table st))).

(** [row.querySelector(this._toggleSelector)]: the first toggle of the row,
    with the position of the cell that holds it. *)
Fixpoint queryToggleFrom (i : nat) (cells : list Cell) : option (nat * Button) :=
  match cells with
  | [] => None
  | c :: cells' =>
      match cell_toggle c with
      | Some b => Some (i, b)
      | None => queryToggleFrom (S i) cells'
      end
  end.

Definition queryToggle (row : Tr) : option (nat * Button) :=
  queryToggleFrom 0 (tr_cells row).

(** Positions of the rows of a body section that are not details rows:
    [Array.from(tb.rows).filter(r => !r.classList.contains(details))]. *)
Definition dataRowsOf (rows : list Tr) : list nat :=
  (fun x => x.1) <$> List.filter (fun x : nat * Tr => negb (tr_details x.2))
                                   (imap (fun i r => (i, r)) rows).

Definition dataRowsIn (st : TableController) (b : nat) : list RowRef :=
  match t_bodies (table st) !! b with
  | Some rows => (fun r => (b, r)) <$> dataRowsOf rows
  | None => []
  end.

Definition bodyIndices (st : TableController) : list nat :=
  seq 0 (length (t_bodies (table st))).

(** [hiddenSet.has(i)] *)
Definition has (hiddenSet : gset Z) (i : Z) : bool := bool_decide (i ∈ hiddenSet).

(** *** [_checkSpans] *)

Definition spansTh (t : Table) (id : nat) : bool :=
  match t_ths t !! id with
  | Some h => negb (th_colSpan h =? 1)%Z || negb (th_rowSpan h =? 1)%Z
  | None => false
  end.

Definition spansCell (c : Cell) : bool :=
  negb (cell_colSpan c =? 1)%Z || negb (cell_rowSpan c =? 1)%Z.

Definition _checkSpans (st : TableController) : TableController :=
  let hasSpanInHead := existsb (spansTh (table st)) (headerCells (table st)) in
  let hasSpanInBody :=
    existsb (fun rows => existsb (fun r => existsb spansCell (tr_cells r)) rows)
            (t_bodies (table st)) in
  if hasSpanInHead || hasSpanInBody then setUnsupportedSpan true st else st.

(** *** [_ensureControlColumn] *)

Definition newControlTh : Th :=
  Th_mk true false 1 1 true "col" None None None "" 0.

Definition newControlTd : Cell :=
  Cell_mk true false 1 1 "" "" None.

Definition firstIsControl (t : Table) : bool :=
  match head (headerCells t) with
  | Some id => match t_ths t !! id with
               | Some h => th_control h
               | None => false
               end
  | None => false
  end.

Definition _ensureControlColumn (st : TableController) : TableController :=
  if firstIsControl (table st) then
    match head (headerCells (table st)) with
    | Some id => setTable (setThs (alter setThAria id)) st
    | None => st
    end
  else
    let id := length (t_ths (table st)) in
    let st1 := setTable (setThs (fun ths => ths ++ [newControlTh])) st in
    let st2 := setTable (setHeaderCells (cons id)) st1 in
    let st3 := setInsertedControl true st2 in
    setTable (mapRows (setCells (cons newControlTd))) st3.

(** *** [_buildColumns] *)

(** [hinted > 0 ? hinted : (w > 0 ? w : minWidthDefault)] *)
Definition measure (o : Options) (h : Th) : Z :=
  let hinted := default 0%Z (th_min h) in
  let w := th_width h in
  if (hinted >? 0)%Z then hinted
  else if (w >? 0)%Z then w else minWidthDefault o.

Definition buildColumn (st : TableController) (i : nat) (id : nat) : ColumnInfo :=
  let h := default newControlTh (t_ths (table st) !! id) in
  let isControl := bool_decide (i = 0) in
  let priority :=
    match th_priority h with
    | Some p => p
    | None => if isControl then 1%Z else (Z.of_nat i + 1)%Z
    end in
  let min := if isControl then controlWidth (options st) else measure (options st) h in
  let lock := isControl || (priority =? 1)%Z in
  ColumnInfo_mk (Z.of_nat i) id priority min lock.

Definition _buildColumns (st : TableController) : TableController :=
  let ths := headerCells (table st) in
  let st1 := setTable (setThs (fun arena =>
               foldl (fun a id => alter (setThHide false) id a) arena ths)) st in
  setColumnsMeta (imap (buildColumn st1) ths) st1.

(** *** [_mountRowsInBody] *)

(** [_detailsIdForRow]: the key of the row, or [x] when it has none. *)
Definition _detailsIdForRow (st : TableController) (row : Tr) : string :=
  let key := match tr_rowKey row with
             | Some k => if String.eqb k "" then "x" else k
             | None => "x"
             end in
  let base := if String.eqb (t_id (table st)) ""
              then "ctbl-" +:+ pretty (_uid st)
              else t_id (table st) in
  base +:+ "-row-" +:+ key +:+ "-details".

Definition newToggle (st : TableController) (row : Tr) : Button :=
  Button_mk false (_detailsIdForRow st row)
    (strings_toggleTitle (options st)) (strings_toggleTitle (options st))
    (icons_expand (options st), strings_toggleTitle (options st)) "".

Definition newDetailsRow (st : TableController) (row : Tr) : Tr :=
  Tr_mk true true (_detailsIdForRow st row) None None
    [Cell_mk false false (headerLength st) 1 "" "" None]
    (Some (Wrap_mk "" [])).

(** Steps 1 to 3 of the loop body, on one data row.  The second component
    is [_rowKeySeq] after the step. *)
Definition bindRow (st : TableController) (seq : nat) (row : Tr) : Tr * nat :=
  (* 1) a control cell at index 0 *)
  let needsControlCell :=
    match head (tr_cells row) with
    | Some first => negb (cell_control first)
    | None => true
    end in
  let row1 := if needsControlCell then setCells (cons newControlTd) row else row in
  (* 2) stable row key *)
  let '(row2, seq') :=
    match tr_rowKey row1 with
    | Some _ => (row1, seq)
    | None =>
        match tr_key_attr row1 with
        | Some k => if String.eqb k "" then (setRowKey (pretty (S seq)) row1, S seq)
                    else (setRowKey k row1, seq)
        | None => (setRowKey (pretty (S seq)) row1, S seq)
        end
    end in
  (* 3) toggle button inside the control cell *)
  let row3 :=
    match head (tr_cells row2) with
    | Some ctrlCell =>
        match cell_toggle ctrlCell with
        | Some _ => row2
        | None => setCells (alter (setCellToggle (Some (newToggle st row2))) 0) row2
        end
    | None => row2
    end in
  (row3, seq').

(** Step 4 when the next sibling is a details row: keep its span in sync. *)
Definition syncSpan (st : TableController) (details : Tr) : Tr :=
  setCells (alter (setCellColSpan (headerLength st)) 0) details.

(** The rows of one body section after the loop over its data rows. *)
Fixpoint mountRows (st : TableController) (seq : nat) (rows : list Tr)
  : list Tr * nat :=
  match rows with
  | [] => ([], seq)
  | row :: rest =>
      if tr_details row then
        let '(out, seq') := mountRows st seq rest in (row :: out, seq')
      else
        let '(row', seq1) := bindRow st seq row in
        match rest with
        | next :: rest' =>
            if tr_details next then
              let '(out, seq2) := mountRows st seq1 rest' in
              (row' :: syncSpan st next :: out, seq2)
            else
              let '(out, seq2) := mountRows st seq1 rest in
              (row' :: newDetailsRow st row' :: out, seq2)
        | [] => ([row'; newDetailsRow st row'], seq1)
        end
  end.

Definition _mountRowsInBody (b : nat) (st : TableController) : TableController :=
  match t_bodies (table st) !! b with
  | Some rows =>
      let '(rows', seq') := mountRows st (_rowKeySeq st) rows in
      setRowKeySeq seq' (setTable (setBodies (fun bodies => <[b := rows']> bodies)) st)
  | None => st
  end.

(** [_mountAllBodies]: every section, then the click and key listeners. *)
Definition _mountAllBodies (st : TableController) : TableController :=
  let st' := foldl (fun s b => _mountRowsInBody b s) st (bodyIndices st) in
  setWiring (wrapper st') true (_observing st') st'.

(** [_observe]: [this.wrapper] is assigned and the observers are started. *)
Definition _observe (st : TableController) : TableController :=
  setWiring true (_listening st) true st.


(** *** [_availableWidth] *)

(** [a || b] on numbers *)
Definition orNumber (a b : Z) : Z := if (a =? 0)%Z then b else a.

Definition _availableWidth (st : TableController) : Z :=
  let L := t_layout (table st) in
  let w :=
    if wrapper st && negb (wrapper_clientWidth L =? 0)%Z then wrapper_clientWidth L
    else if negb (table_clientWidth L =? 0)%Z then table_clientWidth L
    else window_innerWidth L in
  let visible := (wrapper st && wrapper_visible L) && table_visible L in
  if negb visible && deferWhenHidden (options st) then
    orNumber (window_innerWidth L) 1024
  else if (w >? 0)%Z then w else orNumber (window_innerWidth L) 1024.

(** *** [_syncDetailsColspan] and [_applyVisibility] *)

Definition _syncDetailsColspan (st : TableController) : TableController :=
  let span := headerLength st in
  setTable (mapRows (fun row =>
    if tr_details row then setCells (alter (setCellColSpan span) 0) row else row)) st.

(** The inner loop of [_applyVisibility] on the cells of one data row. *)
Definition applyToCells (cm : list ColumnInfo) (hiddenSet : gset Z)
  (cells : list Cell) : list Cell :=
  foldl (fun cs col => alterCell (index col) (setCellHide (has hiddenSet (index col))) cs)
        cells cm.

Definition _applyVisibility (hiddenSet : gset Z) (st : TableController)
  : TableController :=
  let cm := columnsMeta st in
  (* header *)
  let st1 := setTable (setThs (fun arena =>
    foldl (fun a col => alter (setThHide (has hiddenSet (index col))) (th col) a)
          arena cm)) st in
  (* bodies *)
  let st2 := setTable (mapRows (fun row =>
    if tr_details row then row else setCells (applyToCells cm hiddenSet) row)) st1 in
  _syncDetailsColspan st2.

(** *** [_renderDetailsForRow] *)

Fixpoint _firstVisibleCellText (cm : list ColumnInfo) (row : Tr)
  (hiddenSet : gset Z) : string :=
  match cm with
  | [] => ""
  | col :: cm' =>
      if (index col =? 0)%Z then _firstVisibleCellText cm' row hiddenSet
      else if has hiddenSet (index col) then _firstVisibleCellText cm' row hiddenSet
      else
        match cellAt (tr_cells row) (index col) with
        | Some td =>
            let txt := trim (cell_text td) in
            if String.eqb txt "" then _firstVisibleCellText cm' row hiddenSet else txt
        | None => _firstVisibleCellText cm' row hiddenSet
        end
  end.

(** [(th.getAttribute(label) || th.textContent || "").trim()] *)
Definition labelOf (t : Table) (col : ColumnInfo) : string :=
  match t_ths t !! th col with
  | Some h =>
      trim (match th_label h with
            | Some l => if String.eqb l "" then th_text h else l
            | None => th_text h
            end)
  | None => ""
  end.

(** The default list: one entry per hidden column other than the control
    column, in the order of [columnsMeta]. *)
Definition defaultItems (st : TableController) (cells : list Cell)
  (hiddenSet : gset Z) : list Item :=
  omap (fun col =>
    if (index col =? 0)%Z then None
    else if negb (has hiddenSet (index col)) then None
    else
      let label := labelOf (table st) col in
      let name := if String.eqb label "" then "" else label +:+ ": " in
      let value := match cellAt cells (index col) with
                   | Some td => cell_html td
                   | None => ""
                   end in
      Some (ItemDetail name value)) (columnsMeta st).

Definition _renderDetailsForRow (ref dref : RowRef) (hiddenSet : gset Z) : M unit :=
  let! st := get in
  match rowAt (table st) ref, rowAt (table st) dref with
  | Some row, Some detailsRow =>
      match tr_wrap detailsRow with
      | None => ret tt
      | Some _ =>
          (* wrap.innerHTML = "", then the accessible label *)
          let primary := _firstVisibleCellText (columnsMeta st) row hiddenSet in
          let label := if String.eqb primary "" then "Row details"
                       else "Details for " +:+ primary in
          let! _ := modify (setTable (alterRow dref (setWrap (Wrap_mk label [])))) in
          let cells := tr_cells row in
          (* custom renderer hook *)
          let! done :=
            match detailsRender (options st) with
            | Some render =>
                let hiddenCols :=
                  List.filter (fun c => has hiddenSet (index c) && negb (index c =? 0)%Z)
                              (columnsMeta st) in
                match render row hiddenCols cells with
                | RenderNode node =>
                    let! _ := modify (setTable (alterRow dref
                                (setWrap (Wrap_mk label [ItemNode node])))) in
                    ret true
                | RenderString html =>
                    let! _ := modify (setTable (alterRow dref
                                (setWrap (Wrap_mk label [ItemHtml html])))) in
                    ret true
                | RenderOther => ret false
                | RenderThrows e => throw e
                end
            | None => ret false
            end in
          if done then ret tt
          else
            (* default "name: value" list *)
            modify (setTable (alterRow dref
              (setWrap (Wrap_mk label (defaultItems st cells hiddenSet)))))
      end
  | _, _ => ret tt
  end.

(** *** [_updateTogglesVisibility] and [_refit] *)

Definition setButton (ref : RowRef) (ci : nat) (b : Button) (t : Table) : Table :=
  alterRow ref (setCells (alter (setCellToggle (Some b)) ci)) t.

(** The body of the loop over the data rows, in two parts: the control cell
    of the row, then its toggle and its open panel. *)
Definition markControlCell (hideControlCol : bool) (ref : RowRef) : M unit :=
  modify (setTable (alterRow ref (setCells (alter (setCellHide hideControlCol) 0)))).

Definition updateToggle (anyHidden : bool) (hiddenSet : gset Z) (ref : RowRef) : M unit :=
  let! st := get in
  match rowAt (table st) ref ≫= queryToggle with
  | None => ret tt
  | Some (ci, btn) =>
      let hiddenCount :=
        length (List.filter (fun c => has hiddenSet (index c) && negb (index c =? 0)%Z)
                            (columnsMeta st)) in
      let base := strings_toggleTitle (options st) in
      let btn' :=
        Button_mk (aria_expanded btn) (aria_controls btn) (btn_title btn)
          (if anyHidden then base +:+ " (" +:+ pretty hiddenCount +:+ " hidden)" else base)
          (btn_html btn)
          (if anyHidden then "visible" else "hidden") in
      let! _ := modify (setTable (setButton ref ci btn')) in
      (* if currently expanded, re-render details *)
      let dref : RowRef := (ref.1, S ref.2) in
      match rowAt (table st) dref with
      | Some details =>
          if tr_details details && negb (tr_hidden details) && aria_expanded btn
          then _renderDetailsForRow ref dref hiddenSet
          else ret tt
      | None => ret tt
      end
  end.

Definition updateRow (anyHidden : bool) (hiddenSet : gset Z) (ref : RowRef) : M unit :=
  let! _ := markControlCell (negb anyHidden) ref in
  updateToggle anyHidden hiddenSet ref.

Definition _updateTogglesVisibility (anyHidden : bool) (hiddenSet : gset Z) : M unit :=
  let hideControlCol := negb anyHidden in
  let! st := get in
  let! _ :=
    match head (headerCells (table st)) with
    | Some ctrlTh => modify (setTable (setThs (alter (setThHide hideControlCol) ctrlTh)))
    | None => ret tt
    end in
  forEach (bodyIndices st) (fun b =>
    let! st' := get in
    forEach (dataRowsIn st' b) (updateRow anyHidden hiddenSet)).

(** The metadata [_refit] hands to the solver. *)
Definition refitMeta (c : ColumnInfo) : Solver.ColumnMeta :=
  Solver.ColumnMeta_mk (index c) (min c) (priority c)
    ((index c =? 0)%Z || (priority c =? 1)%Z).

(** The hidden-set of a refit pass started in [st]. *)
Definition refitHiddenSet (st : TableController) : gset Z :=
  Solver.computeHiddenColumns (refitMeta <$> columnsMeta st) (_availableWidth st).

(** [Array.from(hiddenSet).some(i => i !== 0)] *)
Definition anyNonControl (hiddenSet : gset Z) : bool :=
  existsb (fun i => negb (i =? 0)%Z) (elements hiddenSet).

Definition _refit (initial : bool) : M unit :=
  let! st := get in
  if _unsupportedSpan st then ret tt
  else
    let hiddenSet := refitHiddenSet st in
    let! _ := modify (_applyVisibility hiddenSet) in
    let anyHidden := anyNonControl hiddenSet in
    let! _ := _updateTogglesVisibility anyHidden hiddenSet in
    emit (EvRefit initial anyHidden).


(** *** [toggle], [expandAll], [collapseAll] *)

(** [c.th.classList.contains(classNames.hide)] *)
Definition thHidden (t : Table) (col : ColumnInfo) : bool :=
  match t_ths t !! th col with
  | Some h => th_hide h
  | None => false
  end.

(** The hidden-set [toggle] reads back from the header. *)
Definition headerHiddenSet (st : TableController) : gset Z :=
  list_to_set (index <$> List.filter (thHidden (table st)) (columnsMeta st)).

Definition setExpanded (b : bool) (html : string * string) (btn : Button) : Button :=
  Button_mk b (aria_controls btn) (btn_title btn) (aria_label btn) html
    (btn_visibility btn).

Definition toggle (ref : RowRef) : M unit :=
  let! st := get in
  match rowAt (table st) ref with
  | None => ret tt
  | Some row =>
      if tr_details row then ret tt
      else
        let dref : RowRef := (ref.1, S ref.2) in
        match queryToggle row, rowAt (table st) dref with
        | Some (ci, btn), Some details =>
            if negb (tr_details details) then ret tt
            else
              let expanded := aria_expanded btn in
              let! _ :=
                if expanded then
                  let! _ := modify (setTable (setButton ref ci
                    (setExpanded false
                       (icons_expand (options st), strings_show (options st)) btn))) in
                  let! _ := modify (setTable (alterRow dref (setTrHidden true))) in
                  emit (EvCollapse ref)
                else
                  let! _ := modify (setTable (setButton ref ci
                    (setExpanded true
                       (icons_collapse (options st), strings_hide (options st)) btn))) in
                  (* rebuild details for the current hidden set *)
                  let hiddenSet := headerHiddenSet st in
                  let! _ := _renderDetailsForRow ref dref hiddenSet in
                  let! _ := modify (setTable (alterRow dref (setTrHidden false))) in
                  emit (EvExpand ref)
              in
              emit (EvToggle ref (negb expanded))
        | _, _ => ret tt
        end
  end.

(** [row.querySelector(toggle)] and its [aria-expanded], read when the loop
    reaches the row. *)
Definition toggleIf (want : bool) (ref : RowRef) : M unit :=
  let! st := get in
  match rowAt (table st) ref ≫= queryToggle with
  | None => ret tt
  | Some (_, btn) =>
      if bool_decide (aria_expanded btn = want) then toggle ref else ret tt
  end.

Definition forEachDataRow (body : RowRef -> M unit) : M unit :=
  let! st := get in
  forEach (bodyIndices st) (fun b =>
    let! st' := get in forEach (dataRowsIn st' b) body).

Definition expandAll : M unit :=
  let! st := get in
  (* only if there are hidden columns *)
  let anyHidden :=
    existsb (fun c => negb (index c =? 0)%Z && thHidden (table st) c) (columnsMeta st) in
  if negb anyHidden then ret tt
  else forEachDataRow (toggleIf false).

Definition collapseAll : M unit := forEachDataRow (toggleIf true).

(** *** [expandRow], [collapseRow] and [_resolveDataRow] *)

(** A JavaScript number as far as indexing an array depends on it. *)
Inductive Number :=
| NInt (z : Z)         (* an integer; [-0] is [0] *)
| NFraction            (* finite and not an integer *)
| NNaN
| NInfinity.           (* either infinity *)

(** The arguments [expandRow] and [collapseRow] are called with.  A value
    that is neither a table row nor one of the primitives below (an object, a
    BigInt) is given by what [Number(...)] does with it: for an object it
    runs the object's own [Symbol.toPrimitive], [valueOf] and [toString],
    which are the caller's code, and converts what they return, or raises. *)
Inductive JsValue :=
| VRow (ref : RowRef)          (* an [HTMLTableRowElement] *)
| VNumber (n : Number)
| VString (s : string)
| VBoolean (b : bool)
| VNull
| VUndefined
| VSymbol
| VOther (number : M Number).

Section RowResolution.

(** [Number(s)] for a string [s], as the host computes it. *)
Variable stringToNumber : string -> Number.

(** [Number(v)] *)
Definition toNumber (v : JsValue) : M Number :=
  match v with
  | VRow _ => ret NNaN
  | VNumber n => ret n
  | VString s => ret (stringToNumber s)
  | VBoolean b => ret (NInt (if b then 1 else 0))
  | VNull => ret (NInt 0)
  | VUndefined => ret NNaN
  | VSymbol => throw "TypeError: Cannot convert a Symbol value to a number"
  | VOther number => number
  end.

(** [this.tbodies.flatMap(tb => Array.from(tb.rows).filter(...))] *)
Definition allRows (st : TableController) : list RowRef :=
  bodyIndices st ≫= dataRowsIn st.

Definition _resolveDataRow (rowOrIndex : JsValue) : M (option RowRef) :=
  match rowOrIndex with
  | VRow ref => ret (Some ref)
  | _ =>
      let! idx := toNumber rowOrIndex in
      match idx with
      | NInt idx =>
          let! st := get in
          ret (if (0 <=? idx)%Z then allRows st !! Z.to_nat idx else None)
      | NFraction => ret None      (* finite, but no such property *)
      | NNaN | NInfinity => ret None
      end
  end.

Definition expandRow (rowOrIndex : JsValue) : M unit :=
  let! row := _resolveDataRow rowOrIndex in
  match row with
  | None => ret tt
  | Some ref =>
      let! st := get in
      match rowAt (table st) ref ≫= queryToggle with
      | Some (_, btn) => if aria_expanded btn then ret tt else toggle ref
      | None => ret tt
      end
  end.

Definition collapseRow (rowOrIndex : JsValue) : M unit :=
  let! row := _resolveDataRow rowOrIndex in
  match row with
  | None => ret tt
  | Some ref =>
      let! st := get in
      match rowAt (table st) ref ≫= queryToggle with
      | Some (_, btn) => if aria_expanded btn then toggle ref else ret tt
      | None => ret tt
      end
  end.

End RowResolution.

(** *** [refresh] and [destroy] *)

Definition remeasure (st : TableController) (i : nat) (col : ColumnInfo) : ColumnInfo :=
  let min :=
    if bool_decide (i = 0) then controlWidth (options st)
    else measure (options st) (default newControlTh (t_ths (table st) !! th col)) in
  ColumnInfo_mk (index col) (th col) (priority col) min (lock col).

Definition refresh : M unit :=
  let! _ := modify (fun st => setColumnsMeta (imap (remeasure st) (columnsMeta st)) st) in
  let! _ := modify _syncDetailsColspan in
  _refit false.

Definition destroy (st : TableController) : TableController :=
  let st0 := setDestroyed true st in
  (* observers and listeners *)
  let st1 := setWiring (wrapper st0) false false st0 in
  (* unhide all cells *)
  let cm := columnsMeta st1 in
  let st2 := setTable (setThs (fun arena =>
    foldl (fun a col => alter (setThHide false) (th col) a) arena cm)) st1 in
  let st3 := setTable (mapRows (fun row =>
    if tr_details row then row
    else setCells (fun cells =>
           foldl (fun cs col => alterCell (index col) (setCellHide false) cs) cells cm)
         row)) st2 in
  (* remove details rows *)
  let st4 := setTable (setBodies (fun bodies =>
    (fun rows => List.filter (fun r => negb (tr_details r)) rows) <$> bodies)) st3 in
  (* remove toggle buttons *)
  let st5 := setTable (mapRows (setCells (fun cells => setCellToggle None <$> cells))) st4 in
  (* if we injected the control column, remove it *)
  let st6 :=
    if _insertedControl st5 then
      let s := setTable (setHeaderCells (drop 1)) st5 in
      setTable (mapRows (fun row =>
        if tr_details row then row else setCells (drop 1) row)) s
    else st5 in
  pushEvent EvDestroy st6.

(** *** The constructor *)

Definition _initOnce : M unit :=
  (* root class, width, and layout *)
  let! _ := modify (setTable (setRoot true)) in
  let! _ := modify (fun st =>
    if String.eqb (t_style_width (table st)) ""
    then setTable (setStyleWidth "100%") st else st) in
  let! _ := modify (fun st =>
    if String.eqb (t_style_tableLayout (table st)) ""
    then setTable (setStyleTableLayout (tableLayout (options st))) st else st) in
  (* structure *)
  let! st := get in
  match t_thead (table st) with
  | None | Some [] =>
      throw "CollapseTable: table <thead> with at least one <tr> is required."
  | Some (_ :: _) =>
      match t_bodies (table st) with
      | [] => throw "CollapseTable: table <tbody> is required."
      | _ :: _ =>
          let! _ := modify _checkSpans in
          let! _ := modify _ensureControlColumn in
          let! _ := modify _buildColumns in
          let! _ := modify _mountAllBodies in
          let! _ := _refit true in
          modify _observe
      end
  end.

(** [new TableController(table, options, emit, mode)], given the value of
    [++__CTBL_TABLE_SEQ]. *)
Definition newController (t : Table) (o : Options) (uid : nat) : TableController :=
  TableController_mk t o 0 false false false uid [] false false false [].

Definition construct (t : Table) (o : Options) (uid : nat)
  : Outcome unit * TableController :=
  _initOnce (newController t o uid).

(** *** Notions used to state the properties of the controller *)

(** Which rows are details rows, section by section. *)
Definition shape (t : Table) : list (list bool) :=
  (fun rows : list Tr => tr_details <$> rows) <$> t_bodies t.

(** Every run of [m], returning or raising, relates its two states by [R]. *)
Definition steps {A} (R : relation TableController) (m : M A) : Prop :=
  forall st o st', m st = (o, st') -> R st st'.

(** The first cell of the row at [ref], if there is one, carries the hidden
    marker exactly when [h] says so. *)
Definition ctrlMarked (h : bool) (t : Table) (ref : RowRef) : Prop :=
  forall row c, rowAt t ref = Some row -> tr_cells row !! 0 = Some c -> cell_hide c = h.

(** What the loop over the data rows leaves alone. *)
Definition keeps (h : bool) (st st' : TableController) : Prop :=
  t_ths (table st') = t_ths (table st) /\
  t_thead (table st') = t_thead (table st) /\
  shape (table st') = shape (table st) /\
  options st' = options st /\
  emitted st' = emitted st /\
  (forall ref, ctrlMarked h (table st) ref -> ctrlMarked h (table st') ref).

(** [v] is neither a table row nor a finite number that is the index of a
    data row. *)
Definition namesNoRow (st : TableController) (v : JsValue) : Prop :=
  (forall ref, v ≠ VRow ref) /\
  (forall z, v = VNumber (NInt z) ->
     ~ (0 <= z < Z.of_nat (length (allRows st)))%Z).

(** The same options without a custom renderer. *)
Definition withoutRenderer (o : Options) : Options :=
  Options_mk (controlWidth o) (minWidthDefault o) (tableLayout o) (deferWhenHidden o)
    (icons_expand o) (icons_collapse o) (strings_toggleTitle o) (strings_show o)
    (strings_hide o) None.

(** The custom renderer, if there is one, never raises. *)
Definition rendererReturns (o : Options) : Prop :=
  forall render, detailsRender o = Some render ->
    forall row hiddenColumns cells e, render row hiddenColumns cells ≠ RenderThrows e.

(** [m] returns whenever the renderer does. *)
Definition returnsIfRendererDoes {A} (m : M A) : Prop :=
  forall st, rendererReturns (options st) -> exists a st', m st = (Returns a, st').

End Controller.

(** ** The facade: attaching and detaching tables *)

Module Facade.
Import Dom Controller.

(** An element of the document. *)
Inductive Element :=
| ElTable (t : Table)
| ElOther.

(** The library instance, the counter [__CTBL_TABLE_SEQ] and the document
    the targets are resolved in.  A registered controller holds the current
    state of its table; [document] is kept equal to it. *)
Record World := World_mk {
  document : gmap nat Element;
  globalOptions : Options;
  _tables : gmap nat TableController;
  tableSeq : nat
}.

Definition store (target : nat) (st : TableController) (w : World) : World :=
  World_mk (<[target := ElTable (table st)]> (document w)) (globalOptions w)
    (<[target := st]> (_tables w)) (tableSeq w).

(** [set(target, perTableOptions)]; [merge] is the effect of the per-table
    options on the global ones. *)
Definition set (target : nat) (merge : Options -> Options) (w : World)
  : Outcome unit * World :=
  match document w !! target with
  | None => (Throws "CollapseTable.set: target not found.", w)
  | Some ElOther =>
      (Throws "CollapseTable.set: target must be a <table> element or its id.", w)
  | Some (ElTable t) =>
      match _tables w !! target with
      | Some ctrl =>
          let ctrl1 := setOptions (merge (globalOptions w)) ctrl in
          let ctrl2 :=
            if bool_decide (t_style_tableLayout (table ctrl1) = tableLayout (options ctrl1))
            then ctrl1
            else setTable (setStyleTableLayout (tableLayout (options ctrl1))) ctrl1 in
          let '(out, ctrl3) := refresh ctrl2 in
          (out, store target ctrl3 w)
      | None =>
          let merged := merge (globalOptions w) in
          let uid := S (tableSeq w) in
          let '(out, ctrl) := construct t merged uid in
          let doc := <[target := ElTable (table ctrl)]> (document w) in
          match out with
          | Returns _ =>
              (Returns tt,
               World_mk doc (globalOptions w) (<[target := ctrl]> (_tables w)) uid)
          | Throws e =>
              (Throws e, World_mk doc (globalOptions w) (_tables w) uid)
          end
      end
  end.

(** [unset(target)] *)
Definition unset (target : nat) (w : World) : World :=
  match _tables w !! target with
  | None => w
  | Some ctrl =>
      let ctrl' := destroy ctrl in
      World_mk (<[target := ElTable (table ctrl')]> (document w)) (globalOptions w)
        (delete target (_tables w)) (tableSeq w)
  end.

(** A table that [_initOnce] rejects. *)
Definition lacksHeaderOrBody (t : Table) : Prop :=
  t_thead t = None \/ t_thead t = Some [] \/ t_bodies t = [].

End Facade.

(** ** A table used in the examples *)

Module Orders.
Import Dom Controller Facade.

Definition th_ (p : option Z) (w : Z) (text : string) : Th :=
  Th_mk false false 1 1 false "" p None None text w.

Definition td_ (text : string) : Cell := Cell_mk false false 1 1 text text None.

Definition tr_ (cells : list Cell) : Tr := Tr_mk false false "" None None cells None.

(** Three columns, Name with priority 1, and two rows; no control column in
    the markup. *)
Definition orders (L : Layout) : Table :=
  Table_mk "orders" false "" ""
    [th_ (Some 1%Z) 200 "Name"; th_ (Some 2%Z) 160 "Amount"; th_ None 130 "Notes"]
    (Some [[0; 1; 2]])
    [[tr_ [td_ "Ann"; td_ "12"; td_ "n/a"]; tr_ [td_ "Bob"; td_ "7"; td_ "late"]]]
    L.

(** The same table without its [<thead>]. *)
Definition headless (L : Layout) : Table :=
  Table_mk "orders" false "" ""
    [] None
    [[tr_ [td_ "Ann"; td_ "12"; td_ "n/a"]; tr_ [td_ "Bob"; td_ "7"; td_ "late"]]]
    L.

(** A container of 1000px, one of 400px and one of 300px, in a 1200px
    window. *)
Definition roomy : Layout := Layout_mk 1000 1000 1200 true true.
Definition tight : Layout := Layout_mk 400 400 1200 true true.
Definition cramped : Layout := Layout_mk 300 300 1200 true true.

Definition setLayout (L : Layout) (t : Table) : Table :=
  Table_mk (t_id t) (t_root t) (t_style_width t) (t_style_tableLayout t) (t_ths t)
    (t_thead t) (t_bodies t) L.

(** The controller of [orders] once the constructor has returned. *)
Definition attached (o : Options) (L : Layout) : TableController :=
  (construct (orders L) o 1).2.

(** The host resizes the container, and the resize observer runs [_refit]. *)
Definition resized (L : Layout) (st : TableController) : Outcome unit * TableController :=
  _refit false (setTable (setLayout L) st).

(** A renderer that raises as soon as two columns are hidden, and returns
    nothing usable before. *)
Definition fragileRender : Renderer :=
  fun _ hiddenColumns _ =>
    if bool_decide (2 <= length hiddenColumns) then RenderThrows "boom" else RenderOther.

(** A renderer that always raises. *)
Definition throwingRender : Renderer := fun _ _ _ => RenderThrows "boom".

Definition withRender (r : Renderer) : Options :=
  Options_mk 46 140 "auto" true "+" "−" "Show more" "Show details" "Hide details" (Some r).

(** A document that holds [orders] as element 7 and [headless] as element 8,
    and a fresh library instance. *)
Definition page : World :=
  World_mk {[ 7 := ElTable (orders roomy); 8 := ElTable (headless roomy); 9 := ElOther ]}
    defaults ∅ 0.

End Orders.

(** ** Further notions for the solver *)

Module SolverNotions.
Import Solver.
Local Open Scope Z_scope.

(** The sum of the minimum widths of the columns the shrink loop cannot
    hide: the locked columns and the control column. *)
Definition fixedSum (columnsMeta : list ColumnMeta) : Z :=
  foldl (fun s c => s + min c) 0
        (List.filter (fun c => negb (hideableMeta c)) columnsMeta).



End SolverNotions.

(** ** Further notions for the controller *)

Module ControllerNotions.
Import Dom Controller.

(** A cell of the first header row or of a body row spans more than one
    column or row. *)
Definition hasSpan (t : Table) : Prop :=
  (exists id h, id ∈ headerCells t /\ t_ths t !! id = Some h /\
     (th_colSpan h ≠ 1%Z \/ th_rowSpan h ≠ 1%Z)) \/
  (exists rows row c, rows ∈ t_bodies t /\ row ∈ rows /\ c ∈ tr_cells row /\
     (cell_colSpan c ≠ 1%Z \/ cell_rowSpan c ≠ 1%Z)).

(** The hidden markers of the body cells, row by row. *)
Definition cellHides (t : Table) : list (list (list bool)) :=
  (fun rows : list Tr => (fun r => cell_hide <$> tr_cells r) <$> rows) <$> t_bodies t.

(** A data row the Row Binder has nothing left to do on: its first cell is a
    control cell that holds a toggle, and the row has its key. *)
Definition isBound (row : Tr) : bool :=
  match head (tr_cells row), tr_rowKey row with
  | Some c, Some _ => cell_control c && bool_decide (is_Some (cell_toggle c))
  | _, _ => false
  end.

(** Between [st] and [st'] no event was emitted, the options are the same,
    every row other than the one at [dref] is as it was, and the row at
    [dref] is still a details row or not, and hidden or not, as before. *)
Definition touchesOnly (dref : RowRef) (st st' : TableController) : Prop :=
  emitted st' = emitted st /\ options st' = options st /\
  columnsMeta st' = columnsMeta st /\
  (forall ref, ref ≠ dref -> rowAt (table st') ref = rowAt (table st) ref) /\
  (fun r => (tr_details r, tr_hidden r)) <$> rowAt (table st') dref
  = (fun r => (tr_details r, tr_hidden r)) <$> rowAt (table st) dref.

End ControllerNotions.

(** ** Facts about the solver *)

Module SolverFacts.
Import Solver.
Local Open Scope Z_scope.

Example scenario_A_list :
  hiddenIndices (finalCols scenarioColumns 500) = [3; 4].
Proof. reflexivity. Qed.

Example scenario_B_list :
  hiddenIndices (finalCols scenarioColumns 700) = [].
Proof. reflexivity. Qed.

(** *** Sums *)

Lemma foldl_add_acc {A} (f : A -> Z) (l : list A) (a : Z) :
  foldl (fun s x => s + f x) a l = a + foldl (fun s x => s + f x) 0 l.
Proof.
  revert a. induction l as [|x l IH]; intros a; simpl; [lia|].
  rewrite (IH (a + f x)), (IH (0 + f x)). lia.
Qed.

Lemma sumMin_nil : sumMin [] = 0.
Proof. reflexivity. Qed.

Lemma sumMin_cons c cols : sumMin (c :: cols) = contrib c + sumMin cols.
Proof.
  unfold sumMin, contrib. simpl. destruct (hidden c); simpl; [lia|].
  rewrite foldl_add_acc. lia.
Qed.

Lemma sumMin_setHidden p b c cols :
  cols !! p = Some c ->
  sumMin (setHidden p b cols) =
  sumMin cols - contrib c + (if b then 0 else min (meta c)).
Proof.
  revert p. induction cols as [|d cols IH]; intros [|p] Hp; simplify_eq/=.
  - unfold setHidden. simpl. rewrite !sumMin_cons. unfold contrib at 1. simpl. lia.
  - unfold setHidden in *. simpl. rewrite !sumMin_cons, (IH p Hp). lia.
Qed.

Lemma setHidden_lookup_eq p b cols :
  setHidden p b cols !! p = (fun c => Col_mk (meta c) b) <$> cols !! p.
Proof. apply list_lookup_alter_eq. Qed.

Lemma setHidden_lookup_ne p q b cols :
  p ≠ q -> setHidden p b cols !! q = cols !! q.
Proof. apply list_lookup_alter_ne. Qed.

Lemma setHidden_meta p b cols : meta <$> setHidden p b cols = meta <$> cols.
Proof.
  unfold setHidden. revert p.
  induction cols as [|c cols IH]; intros [|p]; simpl; try done.
  f_equal. apply IH.
Qed.

Lemma setHidden_same p c cols :
  cols !! p = Some c -> setHidden p (hidden c) cols = cols.
Proof.
  revert p. induction cols as [|d cols IH]; intros [|p] Hp; simplify_eq/=.
  - by destruct c.
  - unfold setHidden in *. simpl. by rewrite IH.
Qed.

Lemma setHidden_twice p b b' cols :
  setHidden p b (setHidden p b' cols) = setHidden p b cols.
Proof.
  unfold setHidden. rewrite list_alter_alter_eq. done.
Qed.


(** *** References and the stable sort *)

Lemma elem_of_refs (r : Ref) cols : r ∈ refs cols <-> cols !! r.1 = Some r.2.
Proof.
  unfold refs. rewrite elem_of_lookup_imap. split.
  - intros (i & c & -> & Hc). done.
  - intros Hc. exists r.1, r.2. by destruct r.
Qed.

Lemma refs_fst cols : (refs cols).*1 = seq 0 (length cols).
Proof.
  unfold refs. rewrite fmap_imap.
  rewrite (imap_ext _ (fun i _ => i)) by done.
  rewrite imap_seq_0. by rewrite list_fmap_id.
Qed.

Lemma filter_refs_NoDup (P : Ref -> bool) cols :
  NoDup (List.filter P (refs cols)).*1.
Proof.
  assert (Hsub : forall l : list Ref, sublist (List.filter P l).*1 l.*1).
  { induction l as [|x l IH]; simpl; [done|].
    destruct (P x); simpl; by constructor. }
  eapply sublist_NoDup; [|apply Hsub]. rewrite refs_fst. apply NoDup_seq.
Qed.

Lemma elem_of_List_filter {A} (P : A -> bool) (l : list A) x :
  x ∈ List.filter P l <-> x ∈ l /\ P x = true.
Proof. rewrite !list_elem_of_In. apply filter_In. Qed.

Lemma insertBy_perm cmp x l : insertBy cmp x l ≡ₚ x :: l.
Proof.
  induction l as [|y l IH]; simpl; [done|].
  destruct (cmp x.2 y.2 <=? 0); [done|].
  rewrite IH. apply Permutation_swap.
Qed.

Lemma sortBy_perm cmp l : sortBy cmp l ≡ₚ l.
Proof.
  unfold sortBy. induction l as [|x l IH]; simpl; [done|].
  by rewrite insertBy_perm, IH.
Qed.

Lemma elem_of_candidates (r : Ref) cols :
  r ∈ candidates cols <-> cols !! r.1 = Some r.2 /\ hideable r.2 = true.
Proof. unfold candidates. by rewrite elem_of_List_filter, elem_of_refs. Qed.

Lemma elem_of_hiddenRefs (r : Ref) cols :
  r ∈ hiddenRefs cols <-> cols !! r.1 = Some r.2 /\ hidden r.2 = true.
Proof. unfold hiddenRefs. by rewrite elem_of_List_filter, elem_of_refs. Qed.

Lemma length_filter_imap {A} (P : A -> bool) (f : nat -> A -> nat * A) (l : list A) :
  (forall i x, (f i x).2 = x) ->
  length (List.filter (fun r => P r.2) (imap f l)) = length (List.filter P l).
Proof.
  revert f. induction l as [|x l IH]; intros f Hf; simpl; [done|].
  rewrite Hf.
  assert (Hl : length (List.filter (fun r => P r.2) (imap (f ∘ S) l))
               = length (List.filter P l)) by (apply IH; intros; apply Hf).
  destruct (P x); simpl; by rewrite Hl.
Qed.

Lemma length_candidates cols : length (candidates cols) = hideableCount cols.
Proof. apply (length_filter_imap hideable). done. Qed.

Lemma count_setHidden (P : Col -> bool) p b c cols :
  cols !! p = Some c ->
  (length (List.filter P (setHidden p b cols)) + (if P c then 1 else 0) =
   length (List.filter P cols) + (if P (Col_mk (meta c) b) then 1 else 0))%nat.
Proof.
  unfold setHidden.
  revert p. induction cols as [|d cols IH]; intros [|p] Hp; simplify_eq/=.
  - destruct (P c), (P _); simpl; lia.
  - specialize (IH p Hp). destruct (P d); simpl; lia.
Qed.


(** *** The shrink loop *)

Lemma worst_candidate cols (r : Ref) :
  head (sortBy worstFirst (candidates cols)) = Some r ->
  cols !! r.1 = Some r.2 /\ hideable r.2 = true.
Proof.
  intros Hh. apply elem_of_candidates.
  rewrite <- (sortBy_perm worstFirst). by apply head_Some_elem_of.
Qed.

Lemma no_candidate cols :
  head (sortBy worstFirst (candidates cols)) = None -> hideableCount cols = 0%nat.
Proof.
  intros Hh. rewrite <- length_candidates, <- (sortBy_perm worstFirst (candidates cols)).
  by destruct (sortBy worstFirst (candidates cols)).
Qed.

Lemma hideable_inv c :
  hideable c = true ->
  hidden c = false /\ lock (meta c) = false /\ index (meta c) ≠ 0.
Proof.
  unfold hideable. rewrite !andb_true_iff, !negb_true_iff. rewrite Z.eqb_neq. tauto.
Qed.

Lemma shrink_meta g cols a : meta <$> shrink g cols a = meta <$> cols.
Proof.
  revert cols. induction g as [|g IH]; intros cols.
  - simpl. by destruct (sumMin cols >? a).
  - simpl. destruct (sumMin cols >? a); [|done].
    destruct (head _) as [r|]; [|done].
    by rewrite IH, setHidden_meta.
Qed.

Lemma hiddenOk_setHidden cols (r : Ref) :
  hiddenOk cols -> cols !! r.1 = Some r.2 -> hideable r.2 = true ->
  hiddenOk (setHidden r.1 true cols).
Proof.
  intros Hok Hr Hh p c Hp Hc.
  destruct (decide (r.1 = p)) as [<-|Hne].
  - rewrite setHidden_lookup_eq, Hr in Hp. simplify_eq/=.
    apply hideable_inv in Hh. tauto.
  - rewrite setHidden_lookup_ne in Hp by done. eauto.
Qed.

Lemma shrink_hiddenOk g cols a : hiddenOk cols -> hiddenOk (shrink g cols a).
Proof.
  revert cols. induction g as [|g IH]; intros cols Hok.
  - simpl. by destruct (sumMin cols >? a).
  - simpl. destruct (sumMin cols >? a); [|done].
    destruct (head _) as [r|] eqn:Hhead; [|done].
    apply worst_candidate in Hhead as [Hr Hh].
    apply IH. by apply hiddenOk_setHidden.
Qed.

Lemma hiddenCount_hide cols (r : Ref) :
  cols !! r.1 = Some r.2 -> hideable r.2 = true ->
  hiddenCount (setHidden r.1 true cols) = S (hiddenCount cols) /\
  S (hideableCount (setHidden r.1 true cols)) = hideableCount cols.
Proof.
  intros Hr Hh. unfold hiddenCount, hideableCount.
  pose proof (count_setHidden hidden r.1 true _ _ Hr) as H1.
  pose proof (count_setHidden hideable r.1 true _ _ Hr) as H2.
  rewrite Hh in H2. apply hideable_inv in Hh as (Hh & _ & _).
  rewrite Hh in H1.
  change (hideable (Col_mk (meta r.2) true)) with false in H2.
  simpl in *. lia.
Qed.

Lemma shrink_hiddenCount g cols a :
  (hiddenCount (shrink g cols a) <= hiddenCount cols + g)%nat.
Proof.
  revert cols. induction g as [|g IH]; intros cols.
  - simpl. destruct (sumMin cols >? a); lia.
  - simpl. destruct (sumMin cols >? a); [|lia].
    destruct (head _) as [r|] eqn:Hhead; [|lia].
    apply worst_candidate in Hhead as [Hr Hh].
    destruct (hiddenCount_hide _ _ Hr Hh) as [Hc _].
    specialize (IH (setHidden r.1 true cols)). lia.
Qed.

(** With enough iterations the loop ends because it fits or because no
    candidate is left. *)
Lemma shrink_exhausts g cols a :
  (hideableCount cols <= g)%nat ->
  sumMin (shrink g cols a) <= a \/ hideableCount (shrink g cols a) = 0%nat.
Proof.
  revert cols. induction g as [|g IH]; intros cols Hg.
  - simpl. destruct (sumMin cols >? a) eqn:Hs; right; lia.
  - simpl. destruct (sumMin cols >? a) eqn:Hs; [|left; lia].
    destruct (head _) as [r|] eqn:Hhead.
    + apply worst_candidate in Hhead as [Hr Hh].
      destruct (hiddenCount_hide _ _ Hr Hh) as [_ Hc].
      apply IH. lia.
    + right. by apply no_candidate.
Qed.


(** *** The grow-back loop *)

Lemma unhides_refl cols : unhides cols cols.
Proof. split; eauto. Qed.

Lemma unhides_trans cols1 cols2 cols3 :
  unhides cols1 cols2 -> unhides cols2 cols3 -> unhides cols1 cols3.
Proof.
  intros [Hm1 Hh1] [Hm2 Hh2]. split; [congruence|].
  intros p c3 Hp Hc. destruct (Hh2 _ _ Hp Hc) as (c2 & Hp2 & Hc2). eauto.
Qed.

Lemma unhides_show p cols : unhides cols (setHidden p false cols).
Proof.
  split; [apply setHidden_meta|]. intros q c' Hq Hc'.
  destruct (decide (p = q)) as [<-|Hne].
  - rewrite setHidden_lookup_eq in Hq.
    destruct (cols !! p); simplify_eq/=.
  - rewrite setHidden_lookup_ne in Hq by done. eauto.
Qed.

Lemma hiddenCount_show p c cols :
  cols !! p = Some c -> hidden c = true ->
  S (hiddenCount (setHidden p false cols)) = hiddenCount cols.
Proof.
  intros Hp Hc. pose proof (count_setHidden hidden p false _ _ Hp) as H.
  rewrite Hc in H. simpl in H. unfold hiddenCount. lia.
Qed.

(** One step of the scan on a column that is hidden: it is shown for good
    when that fits, and nothing changes otherwise. *)
Lemma tryUnhide_hidden a (st : list Col * bool) (r : Ref) c :
  st.1 !! r.1 = Some c -> hidden c = true ->
  (tryUnhide a st r = (setHidden r.1 false st.1, true) /\
   sumMin (setHidden r.1 false st.1) <= a) \/
  (tryUnhide a st r = st /\ a < sumMin st.1 + min (meta c)).
Proof.
  intros Hp Hc. unfold tryUnhide. cbv zeta.
  pose proof (sumMin_setHidden r.1 false c st.1 Hp) as Hs.
  unfold contrib in Hs. rewrite Hc in Hs.
  destruct (sumMin (setHidden r.1 false st.1) <=? a) eqn:Hle.
  - left. split; [done|lia].
  - right. split; [|lia].
    rewrite setHidden_twice. rewrite <- Hc, (setHidden_same _ _ _ Hp).
    by destruct st.
Qed.

Lemma scan_spec a (l : list Ref) : forall st : list Col * bool,
  NoDup l.*1 ->
  (forall r, r ∈ l -> exists c, st.1 !! r.1 = Some c /\ hidden c = true) ->
  let st' := foldl (tryUnhide a) st l in
  unhides st.1 st'.1 /\
  (sumMin st.1 <= a -> sumMin st'.1 <= a) /\
  (st'.2 = false ->
     st.2 = false /\ st'.1 = st.1 /\
     forall r c, r ∈ l -> st.1 !! r.1 = Some c -> a < sumMin st.1 + min (meta c)) /\
  (st'.2 = true -> st.2 = true \/ (hiddenCount st'.1 < hiddenCount st.1)%nat) /\
  (hiddenCount st'.1 <= hiddenCount st.1)%nat.
Proof.
  induction l as [|r l IH]; intros st Hnd Hl; simpl.
  - split; [apply unhides_refl|]. split; [done|]. split; [|split; [tauto|lia]].
    intros Hf. split; [done|]. split; [done|]. intros r c Hr. by apply not_elem_of_nil in Hr.
  - rewrite fmap_cons in Hnd. apply NoDup_cons in Hnd as [Hr Hnd].
    destruct (Hl r) as (c & Hp & Hc); [left|].
    assert (Hrest : forall st1 : list Col * bool,
      (forall q, q ≠ r.1 -> st1.1 !! q = st.1 !! q) ->
      forall r', r' ∈ l -> exists c', st1.1 !! r'.1 = Some c' /\ hidden c' = true).
    { intros st1 Hsame r' Hr'. rewrite Hsame; [apply Hl; by right|].
      intros Heq. apply Hr. rewrite <- Heq. by apply list_elem_of_fmap_2. }
    destruct (tryUnhide_hidden a st r c Hp Hc) as [[-> Hfit]|[-> Hno]].
    + specialize (IH (setHidden r.1 false st.1, true) Hnd).
      destruct IH as (Hu & Hs & Hf & Ht & Hn).
      { apply Hrest. intros q Hq. simpl. by apply setHidden_lookup_ne. }
      simpl in *. pose proof (hiddenCount_show _ _ _ Hp Hc) as Hcnt.
      split; [eapply unhides_trans; [apply unhides_show|exact Hu]|].
      split; [auto|]. split; [intros Hfalse; by destruct (Hf Hfalse)|].
      split; [right|]; lia.
    + specialize (IH st Hnd). destruct IH as (Hu & Hs & Hf & Ht & Hn).
      { apply Hrest. done. }
      split; [done|]. split; [done|]. split; [|done].
      intros Hfalse. destruct (Hf Hfalse) as (H1 & H2 & H3).
      split; [done|]. split; [done|].
      intros r' c' Hr' Hp'. apply elem_of_cons in Hr' as [->|Hr']; [|eauto].
      by simplify_eq.
Qed.

Lemma growPass_spec cols a :
  unhides cols (growPass cols a).1 /\
  (sumMin cols <= a -> sumMin (growPass cols a).1 <= a) /\
  ((growPass cols a).2 = false -> (growPass cols a).1 = cols /\ minimalAt a cols) /\
  ((growPass cols a).2 = true ->
     (hiddenCount (growPass cols a).1 < hiddenCount cols)%nat).
Proof.
  unfold growPass.
  destruct (scan_spec a (sortBy bestFirst (hiddenRefs cols)) (cols, false))
    as (Hu & Hs & Hf & Ht & Hn).
  - rewrite (sortBy_perm bestFirst). apply filter_refs_NoDup.
  - intros r. rewrite (sortBy_perm bestFirst), elem_of_hiddenRefs. simpl. eauto.
  - simpl in *. split; [done|]. split; [done|]. split.
    + intros Hfalse. destruct (Hf Hfalse) as (_ & Heq & Hmin). split; [done|].
      intros p c Hp Hc. apply (Hmin (p, c)); [|done].
      rewrite (sortBy_perm bestFirst), elem_of_hiddenRefs. done.
    + intros Htrue. destruct (Ht Htrue) as [?|?]; [done|lia].
Qed.

Lemma growBack_unhides g cols a : unhides cols (growBack g cols a).
Proof.
  revert cols. induction g as [|g IH]; intros cols; simpl; [apply unhides_refl|].
  destruct (growPass_spec cols a) as (Hu & _).
  destruct (growPass cols a) as [cols' [|]]; simpl in *; [|done].
  eapply unhides_trans; [exact Hu|apply IH].
Qed.

Lemma growBack_fits g cols a : sumMin cols <= a -> sumMin (growBack g cols a) <= a.
Proof.
  revert cols. induction g as [|g IH]; intros cols Hfit; simpl; [done|].
  destruct (growPass_spec cols a) as (_ & Hs & _).
  destruct (growPass cols a) as [cols' [|]]; simpl in *; auto.
Qed.

Lemma hiddenCount_zero cols :
  hiddenCount cols = 0%nat -> forall p c, cols !! p = Some c -> hidden c = false.
Proof.
  unfold hiddenCount.
  induction cols as [|d cols IH]; intros H0 [|p] c Hp; simplify_eq/=.
  - by destruct (hidden c).
  - destruct (hidden d); simpl in *; [lia|eauto].
Qed.

(** The second loop ends at a fixpoint of the scan whenever its guard is at
    least the number of hidden columns it starts from. *)
Lemma growBack_minimal g cols a :
  (hiddenCount cols <= g)%nat -> minimalAt a (growBack g cols a).
Proof.
  revert cols. induction g as [|g IH]; intros cols Hg; simpl.
  - intros p c Hp Hc. rewrite (hiddenCount_zero cols ltac:(lia) p c Hp) in Hc. done.
  - destruct (growPass_spec cols a) as (_ & _ & Hf & Ht).
    destruct (growPass cols a) as [cols' [|]]; simpl in *.
    + apply IH. specialize (Ht eq_refl). lia.
    + destruct (Hf eq_refl) as [-> Hmin]. done.
Qed.


(** *** Sums over a selection of the columns *)

Lemma sumMin_sumOver cols : sumMin cols = sumOver (fun c => negb (hidden c)) cols.
Proof.
  induction cols as [|c cols IH]; [done|].
  rewrite sumMin_cons, IH. unfold contrib. simpl. by destruct (hidden c).
Qed.

Lemma survivingSum_sumOver cols H :
  survivingSum (meta <$> cols) H =
  sumOver (fun c => bool_decide (index (meta c) ∉ H)) cols.
Proof.
  unfold survivingSum. induction cols as [|c cols IH]; [done|].
  rewrite fmap_cons. cbn [List.filter sumOver].
  destruct (bool_decide _); [|by rewrite IH].
  cbn [foldl]. rewrite foldl_add_acc, IH. lia.
Qed.

Lemma sumOver_le (P Q : Col -> bool) cols :
  (forall p c, cols !! p = Some c -> 0 <= min (meta c)) ->
  (forall p c, cols !! p = Some c -> P c = true -> Q c = true) ->
  sumOver P cols <= sumOver Q cols.
Proof.
  induction cols as [|d cols IH]; intros Hpos Himp; simpl; [lia|].
  assert (sumOver P cols <= sumOver Q cols) as Hle.
  { apply IH; intros p c Hp; [apply (Hpos (S p) c Hp)|apply (Himp (S p) c Hp)]. }
  pose proof (Hpos 0%nat d eq_refl) as Hd. pose proof (Himp 0%nat d eq_refl) as HPQ.
  destruct (P d); [rewrite HPQ by done|destruct (Q d)]; lia.
Qed.

Lemma sumOver_ext (P Q : Col -> bool) cols :
  (forall p c, cols !! p = Some c -> P c = Q c) ->
  sumOver P cols = sumOver Q cols.
Proof.
  induction cols as [|d cols IH]; intros Heq; simpl; [done|].
  rewrite (Heq 0%nat d eq_refl), IH; [done|].
  intros p c Hp. apply (Heq (S p) c Hp).
Qed.

(** Two selections that differ at one position only. *)
Lemma sumOver_one_more (P Q : Col -> bool) p c cols :
  cols !! p = Some c -> P c = false -> Q c = true ->
  (forall q d, q ≠ p -> cols !! q = Some d -> Q d = P d) ->
  sumOver Q cols = sumOver P cols + min (meta c).
Proof.
  revert p. induction cols as [|d cols IH]; intros [|p] Hp HP HQ Hrest; simplify_eq/=.
  - rewrite HP, HQ. rewrite (sumOver_ext Q P); [lia|].
    intros q d Hq. by apply (Hrest (S q)).
  - rewrite (Hrest 0%nat d) by done. rewrite (IH p Hp HP HQ); [lia|].
    intros q e Hne Hq. apply (Hrest (S q)); [lia|done].
Qed.

Lemma count_zero {A} (P : A -> bool) (l : list A) :
  length (List.filter P l) = 0%nat -> forall p x, l !! p = Some x -> P x = false.
Proof.
  induction l as [|y l IH]; intros H0 [|p] x Hp; simplify_eq/=.
  - by destruct (P x).
  - destruct (P y); simpl in *; [lia|eauto].
Qed.

(** *** The state of [cols] on return *)

Lemma copyColumns_meta cm : meta <$> copyColumns cm = cm.
Proof.
  unfold copyColumns. rewrite <- list_fmap_compose. apply list_fmap_id.
Qed.

Lemma copyColumns_visible cm p c : copyColumns cm !! p = Some c -> hidden c = false.
Proof.
  unfold copyColumns. rewrite list_lookup_fmap.
  destruct (cm !! p); intros; by simplify_eq/=.
Qed.

Lemma copyColumns_hiddenCount cm : hiddenCount (copyColumns cm) = 0%nat.
Proof. unfold hiddenCount, copyColumns. by induction cm. Qed.

Lemma final_meta cm a : meta <$> finalCols cm a = cm.
Proof.
  unfold finalCols.
  destruct (growBack_unhides 200 (shrink 200 (copyColumns cm) a) a) as [-> _].
  by rewrite shrink_meta, copyColumns_meta.
Qed.

Lemma same_meta (cols cols' : list Col) p c c' :
  meta <$> cols' = meta <$> cols ->
  cols !! p = Some c -> cols' !! p = Some c' -> meta c' = meta c.
Proof.
  intros Hm Hp Hp'.
  assert ((meta <$> cols') !! p = (meta <$> cols) !! p) as Heq by by rewrite Hm.
  rewrite !list_lookup_fmap, Hp, Hp' in Heq. by simplify_eq/=.
Qed.

Lemma unhides_hiddenOk cols cols' : unhides cols cols' -> hiddenOk cols -> hiddenOk cols'.
Proof.
  intros [Hm Hh] Hok p c' Hp Hc. destruct (Hh _ _ Hp Hc) as (c & Hq & Hcq).
  rewrite (same_meta _ _ _ _ _ Hm Hq Hp). eauto.
Qed.

Lemma final_hiddenOk cm a : hiddenOk (finalCols cm a).
Proof.
  unfold finalCols. eapply unhides_hiddenOk; [apply growBack_unhides|].
  apply shrink_hiddenOk. intros p c Hp Hc.
  by rewrite (copyColumns_visible _ _ _ Hp) in Hc.
Qed.

Lemma final_minimal cm a : minimalAt a (finalCols cm a).
Proof.
  unfold finalCols. apply growBack_minimal.
  pose proof (shrink_hiddenCount 200 (copyColumns cm) a).
  rewrite copyColumns_hiddenCount in *. lia.
Qed.

Lemma elem_of_hiddenIndices cols i :
  i ∈ hiddenIndices cols <->
  exists p c, cols !! p = Some c /\ hidden c = true /\ index (meta c) = i.
Proof.
  unfold hiddenIndices. rewrite list_elem_of_fmap. split.
  - intros (c & -> & Hc). apply elem_of_List_filter in Hc as [Hc Hh].
    apply list_elem_of_lookup in Hc as [p Hp]. eauto.
  - intros (p & c & Hp & Hh & <-). exists c. split; [done|].
    apply elem_of_List_filter. split; [|done]. apply list_elem_of_lookup. eauto.
Qed.

Lemma elem_of_computeHiddenColumns cm a i :
  i ∈ computeHiddenColumns cm a <->
  exists p c, finalCols cm a !! p = Some c /\ hidden c = true /\ index (meta c) = i.
Proof.
  unfold computeHiddenColumns. by rewrite elem_of_list_to_set, elem_of_hiddenIndices.
Qed.

(** With pairwise distinct indices the hidden-set tells the flags. *)
Lemma hidden_iff_in_set cm a p c :
  NoDup (index <$> cm) ->
  finalCols cm a !! p = Some c ->
  hidden c = true <-> index (meta c) ∈ computeHiddenColumns cm a.
Proof.
  intros Hnd Hp. rewrite elem_of_computeHiddenColumns. split; [eauto|].
  intros (q & d & Hq & Hd & Hi).
  assert (Hl : forall k e, finalCols cm a !! k = Some e ->
                 (index <$> cm) !! k = Some (index (meta e))).
  { intros k e Hk. rewrite <- (final_meta cm a) at 1.
    by rewrite !list_lookup_fmap, Hk. }
  pose proof (Hl _ _ Hp) as H1. pose proof (Hl _ _ Hq) as H2. rewrite Hi in H2.
  assert (q = p) as -> by (eapply NoDup_lookup; eauto). by simplify_eq.
Qed.


Lemma hideableCount_copy cm :
  hideableCount (copyColumns cm) = length (List.filter hideableMeta cm).
Proof.
  unfold hideableCount, copyColumns. induction cm as [|c cm IH]; [done|].
  rewrite fmap_cons. cbn [List.filter].
  change (hideable (Col_mk c false)) with (hideableMeta c).
  destruct (hideableMeta c); simpl; by rewrite IH.
Qed.

Lemma lookup_final_meta cm a p c :
  finalCols cm a !! p = Some c -> cm !! p = Some (meta c).
Proof.
  intros Hp. rewrite <- (final_meta cm a) at 1. by rewrite list_lookup_fmap, Hp.
Qed.

(** C1, amended. When every minimum width is non-negative and at most 200
    columns are unlocked and not the control column (the guard of the shrink
    loop), the fit guarantee holds: if hiding some set of unlocked columns
    other than the control column fits within [available], the survivors of
    the returned hidden-set fit within [available]. *)
Theorem fit_guarantee cm a :
  Forall (fun c => 0 <= min c) cm ->
  (length (List.filter hideableMeta cm) <= 200)%nat ->
  (exists H, onlyUnlocked cm H /\ survivingSum cm H <= a) ->
  sumMin (finalCols cm a) <= a /\
  survivingSum cm (computeHiddenColumns cm a) <= a.
Proof.
  intros Hpos Hlen (H & Hunl & Hfit).
  set (s := shrink 200 (copyColumns cm) a).
  assert (Hs_meta : meta <$> s = cm) by (unfold s; by rewrite shrink_meta, copyColumns_meta).
  assert (Hs_pos : forall p c, s !! p = Some c -> 0 <= min (meta c)).
  { intros p c Hp. rewrite Forall_forall in Hpos. apply Hpos.
    rewrite <- Hs_meta. apply list_elem_of_fmap_2. apply list_elem_of_lookup. eauto. }
  assert (Hs_fit : sumMin s <= a).
  { destruct (shrink_exhausts 200 (copyColumns cm) a) as [Hok|Hnone];
      [by rewrite hideableCount_copy|done|].
    fold s in Hnone. etrans; [|exact Hfit].
    rewrite <- Hs_meta, survivingSum_sumOver, sumMin_sumOver.
    apply sumOver_le; [done|]. intros p c Hp Hvis.
    apply bool_decide_eq_true. intros Hin.
    unfold onlyUnlocked in Hunl. rewrite Forall_forall in Hunl.
    destruct (Hunl (meta c)) as [Hl Hi]; [|done|].
    { rewrite <- Hs_meta. apply list_elem_of_fmap_2. apply list_elem_of_lookup. eauto. }
    pose proof (count_zero hideable s Hnone p c Hp) as Hh.
    unfold hideable in Hh. rewrite Hl in Hh.
    apply negb_true_iff in Hvis. rewrite Hvis in Hh. simpl in Hh.
    apply negb_false_iff, Z.eqb_eq in Hh. done. }
  apply (growBack_fits 200) in Hs_fit. fold (finalCols cm a) in Hs_fit.
  split; [done|]. etrans; [|exact Hs_fit].
  rewrite <- (final_meta cm a) at 1. rewrite survivingSum_sumOver, sumMin_sumOver.
  apply sumOver_le.
  - intros p c Hp. rewrite Forall_forall in Hpos. apply Hpos.
    apply lookup_final_meta in Hp. apply list_elem_of_lookup. eauto.
  - intros p c Hp Hout. apply bool_decide_eq_true in Hout.
    apply negb_true_iff. destruct (hidden c) eqn:Hc; [|done].
    exfalso. apply Hout. apply elem_of_computeHiddenColumns. eauto.
Qed.

Lemma fit_guarantee_witness :
  sumMin (finalCols scenarioColumns 500) <= 500 /\
  survivingSum scenarioColumns (computeHiddenColumns scenarioColumns 500) <= 500.
Proof.
  apply fit_guarantee.
  - repeat constructor; simpl; lia.
  - simpl. lia.
  - exists {[2; 3; 4]}. split.
    + apply (bool_decide_unpack _). vm_compute. exact I.
    + vm_compute. discriminate.
Defined.

(** C1 as the specification states it fails past the guard of 200
    iterations: of 201 hideable columns the shrink loop hides 200 and stops,
    46 + 140 = 186 is left for a container of 100, while hiding all 201
    leaves 46. *)
Lemma fit_guarantee_fails_beyond_guard :
  (exists H, onlyUnlocked wideColumns H /\ survivingSum wideColumns H <= 100) /\
  ~ survivingSum wideColumns (computeHiddenColumns wideColumns 100) <= 100.
Proof.
  split.
  - exists (list_to_set (Z.of_nat <$> seq 1 201)). split.
    + apply Forall_forall. intros c Hc Hin. unfold wideColumns in Hc.
      apply elem_of_cons in Hc as [->|Hc].
      * exfalso.
        apply elem_of_list_to_set, list_elem_of_fmap in Hin as (i & Hi0 & Hi).
        apply elem_of_seq in Hi. cbn [index] in Hi0. lia.
      * apply list_elem_of_fmap in Hc as (i & -> & Hi). apply elem_of_seq in Hi.
        simpl. split; [done|lia].
    + vm_compute. discriminate.
  - vm_compute. intros H. by apply H.
Qed.

(** A negative minimum width defeats the guarantee as well: the scan of the
    grow-back loop shows one column at a time, and here only showing both
    narrow columns together fits. *)
Lemma fit_fails_with_negative_width :
  let cm := [ColumnMeta_mk 0 0 1 true; ColumnMeta_mk 1 100 2 false;
             ColumnMeta_mk 2 (-10) 3 false; ColumnMeta_mk 3 (-10) 3 false] in
  survivingSum cm {[1]} <= -15 /\
  ~ survivingSum cm (computeHiddenColumns cm (-15)) <= -15.
Proof. cbv zeta. split; vm_compute; [discriminate|]. intros H. by apply H. Qed.

(** With pairwise distinct indices the sum over the survivors of the returned
    hidden-set is the sum the solver itself computes on return. *)
Lemma survivingSum_final cm a :
  NoDup (index <$> cm) ->
  survivingSum cm (computeHiddenColumns cm a) = sumMin (finalCols cm a).
Proof.
  intros Hnd. rewrite <- (final_meta cm a) at 1.
  rewrite survivingSum_sumOver, sumMin_sumOver. apply sumOver_ext.
  intros p c Hp. pose proof (hidden_iff_in_set cm a p c Hnd Hp) as Hiff.
  destruct (hidden c); simpl.
  - apply bool_decide_eq_false. intros Hout. apply Hout. by apply Hiff.
  - apply bool_decide_eq_true. intros Hin. by apply Hiff in Hin.
Qed.

(** C3. Minimality: every index of the returned hidden-set belongs to a
    column that is marked hidden on return, and adding the minimum width of
    any column marked hidden to the surviving sum exceeds [available], for
    every input; for columns with pairwise distinct indices, taking any
    index out of the returned hidden-set makes the surviving minimum-width
    sum exceed [available]. *)
Theorem minimality cm a :
  (forall i, i ∈ computeHiddenColumns cm a ->
     exists p c, finalCols cm a !! p = Some c /\ hidden c = true /\
       index (meta c) = i /\ a < sumMin (finalCols cm a) + min (meta c)) /\
  (forall p c, finalCols cm a !! p = Some c -> hidden c = true ->
     a < sumMin (finalCols cm a) + min (meta c)) /\
  (NoDup (index <$> cm) ->
   forall i, i ∈ computeHiddenColumns cm a ->
     a < survivingSum cm (computeHiddenColumns cm a ∖ {[i]})).
Proof.
  split; [|split; [apply final_minimal|]].
  { intros i Hi. apply elem_of_computeHiddenColumns in Hi as (p & c & Hp & Hc & Hidx).
    exists p, c. repeat split; try done. by apply (final_minimal cm a p c). }
  intros Hnd i Hi.
  pose proof Hi as Hi'. apply elem_of_computeHiddenColumns in Hi' as (p & c & Hp & Hc & Hidx).
  pose proof (final_minimal cm a p c Hp Hc) as Hmin.
  rewrite <- (final_meta cm a) at 1. rewrite survivingSum_sumOver.
  rewrite (sumOver_one_more (fun c => negb (hidden c)) _ p c); rewrite <- ?sumMin_sumOver; try done.
  - by rewrite Hc.
  - apply bool_decide_eq_true. intros Hin.
    apply elem_of_difference in Hin as [_ Hn]. apply Hn. by apply elem_of_singleton.
  - intros q d Hne Hq.
    assert (index (meta d) ≠ i) as Hdi.
    { intros Heq. apply Hne. apply lookup_final_meta in Hp, Hq.
      eapply (NoDup_lookup _ _ _ i Hnd); rewrite list_lookup_fmap.
      - by rewrite Hq; simpl; rewrite Heq.
      - by rewrite Hp; simpl; rewrite Hidx. }
    pose proof (hidden_iff_in_set cm a q d Hnd Hq) as Hiff.
    destruct (hidden d) eqn:Hd; simpl.
    + apply bool_decide_eq_false. intros Hout. apply Hout.
      apply elem_of_difference. split; [by apply Hiff|].
      by rewrite elem_of_singleton.
    + apply bool_decide_eq_true. intros Hin. apply elem_of_difference in Hin as [Hin _].
      apply Hiff in Hin. done.
Qed.

Lemma minimality_witness :
  (exists p c, finalCols scenarioColumns 500 !! p = Some c /\ hidden c = true /\
     index (meta c) = 4 /\ 500 < sumMin (finalCols scenarioColumns 500) + min (meta c)) /\
  500 < sumMin (finalCols scenarioColumns 500) + 130 /\
  500 < survivingSum scenarioColumns (computeHiddenColumns scenarioColumns 500 ∖ {[3]}).
Proof.
  destruct (minimality scenarioColumns 500) as (Hidx & Hflag & Hset). split; [|split].
  - apply Hidx. apply (bool_decide_unpack _). vm_compute. exact I.
  - apply (Hflag 3%nat (Col_mk (ColumnMeta_mk 3 130 3 false) true)); reflexivity.
  - apply Hset.
    + apply (bool_decide_unpack _). vm_compute. exact I.
    + apply (bool_decide_unpack _). vm_compute. exact I.
Defined.

(** C4. Scenario C: with 240 available the solver returns exactly the
    indices of B, C and D, and accepts that the two locked survivors need
    246. *)
Theorem scenario_C :
  computeHiddenColumns scenarioColumns 240 = {[2; 3; 4]} /\
  survivingSum scenarioColumns (computeHiddenColumns scenarioColumns 240) = 246 /\
  240 < 246.
Proof.
  split; [|split; [by vm_compute|done]].
  unfold computeHiddenColumns.
  change (hiddenIndices (finalCols scenarioColumns 240)) with [2; 3; 4].
  simpl. by rewrite (right_id_L ∅ (∪)), (assoc_L (∪)).
Qed.

End SolverFacts.

(** ** Facts about the controller *)

Module ControllerFacts.
Import Dom Controller.

(** *** Rows of the table *)

Lemma rowAt_alterRow ref ref' f t :
  rowAt (alterRow ref f t) ref' =
  if decide (ref = ref') then f <$> rowAt t ref else rowAt t ref'.
Proof.
  destruct ref as [b r], ref' as [b' r']. unfold rowAt, alterRow. simpl.
  destruct (decide (b = b')) as [<-|Hb].
  - rewrite list_lookup_alter_eq. destruct (t_bodies t !! b) as [rows|] eqn:Hrows; simpl.
    + destruct (decide (r = r')) as [<-|Hr].
      * rewrite decide_True by done. by rewrite list_lookup_alter_eq.
      * rewrite decide_False by congruence. by rewrite list_lookup_alter_ne.
    + by destruct (decide _).
  - rewrite list_lookup_alter_ne by done. by rewrite decide_False by congruence.
Qed.

Lemma shape_alterRow ref f t :
  (forall row, tr_details (f row) = tr_details row) ->
  shape (alterRow ref f t) = shape t.
Proof.
  intros Hf. unfold shape, alterRow. simpl.
  apply list_eq. intros b. rewrite !list_lookup_fmap.
  destruct (decide (ref.1 = b)) as [<-|Hb].
  - rewrite list_lookup_alter_eq. destruct (t_bodies t !! ref.1) as [rows|]; [|done].
    simpl. f_equal. apply list_eq. intros r. rewrite !list_lookup_fmap.
    destruct (decide (ref.2 = r)) as [<-|Hr].
    + rewrite list_lookup_alter_eq. destruct (rows !! ref.2); simpl; [|done]. by rewrite Hf.
    + by rewrite list_lookup_alter_ne.
  - by rewrite list_lookup_alter_ne.
Qed.

Lemma elem_of_dataRowsOf rows r :
  r ∈ dataRowsOf rows <-> exists row, rows !! r = Some row /\ tr_details row = false.
Proof.
  unfold dataRowsOf. rewrite list_elem_of_fmap. split.
  - intros ([i row] & -> & Hin). apply list_elem_of_In, filter_In in Hin as [Hin Hd].
    apply list_elem_of_In, elem_of_lookup_imap in Hin as (j & y & Heq & Hy).
    injection Heq as -> ->. exists y. split; [done|]. by apply negb_true_iff.
  - intros (row & Hr & Hd). exists (r, row). split; [done|].
    apply list_elem_of_In, filter_In. split.
    + apply list_elem_of_In, elem_of_lookup_imap. eauto.
    + simpl. by rewrite Hd.
Qed.

Lemma elem_of_dataRowsIn st ref :
  ref ∈ dataRowsIn st ref.1 <->
  exists row, rowAt (table st) ref = Some row /\ tr_details row = false.
Proof.
  destruct ref as [b r]. unfold dataRowsIn, rowAt. simpl.
  destruct (t_bodies (table st) !! b) as [rows|]; simpl.
  - rewrite list_elem_of_fmap. setoid_rewrite <- elem_of_dataRowsOf. split.
    + intros (r' & Heq & Hr'). by simplify_eq.
    + intros Hr. eauto.
  - split; [intros H; by apply not_elem_of_nil in H|]. intros (row & Hrow & _). done.
Qed.

Lemma shape_lookup t t' ref row' :
  shape t' = shape t -> rowAt t' ref = Some row' ->
  exists row, rowAt t ref = Some row /\ tr_details row = tr_details row'.
Proof.
  intros Hs Hr. unfold rowAt in *.
  assert (Hl : shape t' !! ref.1 ≫= (fun r => r !! ref.2) = Some (tr_details row')).
  { unfold shape. rewrite list_lookup_fmap.
    destruct (t_bodies t' !! ref.1) as [rows|]; simpl in *; [|done].
    by rewrite list_lookup_fmap, Hr. }
  rewrite Hs in Hl. unfold shape in Hl. rewrite list_lookup_fmap in Hl.
  destruct (t_bodies t !! ref.1) as [rows|]; simpl in *; [|done].
  rewrite list_lookup_fmap in Hl. destruct (rows !! ref.2) as [row|]; simplify_eq/=.
  eauto.
Qed.

Lemma shape_length t t' : shape t' = shape t -> length (t_bodies t') = length (t_bodies t).
Proof.
  intros Hs. apply (f_equal length) in Hs. unfold shape in Hs.
  by rewrite !length_fmap in Hs.
Qed.


(** *** Reasoning about methods *)

Section Steps.
Context (R : relation TableController) `{!Reflexive R} `{!Transitive R}.

Lemma steps_ret {A} (a : A) : steps R (ret a).
Proof. intros st o st' [= <- <-]. reflexivity. Qed.

Lemma steps_throw {A} e : steps R (throw (A:=A) e).
Proof. intros st o st' [= <- <-]. reflexivity. Qed.

Lemma steps_get : steps R get.
Proof. intros st o st' [= <- <-]. reflexivity. Qed.

Lemma steps_modify f : (forall st, R st (f st)) -> steps R (modify f).
Proof. intros Hf st o st' [= <- <-]. apply Hf. Qed.

Lemma steps_bind {A B} (m : M A) (k : A -> M B) :
  steps R m -> (forall a, steps R (k a)) -> steps R (bind m k).
Proof.
  intros Hm Hk st o st'. unfold bind.
  destruct (m st) as [[a|e] st1] eqn:Hrun.
  - intros Hkk. etrans; [eapply Hm, Hrun|eapply Hk, Hkk].
  - intros [= <- <-]. eapply Hm, Hrun.
Qed.

Lemma steps_forEach {X} (l : list X) body :
  (forall x, steps R (body x)) -> steps R (forEach l body).
Proof.
  intros Hb. induction l as [|x l IH]; simpl; [apply steps_ret|].
  apply steps_bind; auto.
Qed.

(** What a loop that returns has established for each element. *)
Lemma forEach_post {X} (Q : X -> TableController -> Prop) (l : list X) body :
  (forall x, steps R (body x)) ->
  (forall x st st', body x st = (Returns tt, st') -> Q x st') ->
  (forall x st st', Q x st -> R st st' -> Q x st') ->
  forall st st', forEach l body st = (Returns tt, st') ->
  forall x, x ∈ l -> Q x st'.
Proof.
  intros Hsteps Hest Hkeep. induction l as [|y l IH]; intros st st' Hrun x Hx.
  - by apply not_elem_of_nil in Hx.
  - simpl in Hrun. unfold bind in Hrun.
    destruct (body y st) as [[[]|e] st1] eqn:Hy; [|done].
    apply elem_of_cons in Hx as [->|Hx]; [|by eapply IH].
    eapply Hkeep; [eapply Hest, Hy|]. eapply (steps_forEach l body Hsteps), Hrun.
Qed.

End Steps.

Lemma bind_returns {A B} (m : M A) (k : A -> M B) st b st' :
  bind m k st = (Returns b, st') ->
  exists a st1, m st = (Returns a, st1) /\ k a st1 = (Returns b, st').
Proof.
  unfold bind. destruct (m st) as [[a|e] st1]; [eauto|done].
Qed.

(** *** The control column after a pass *)

#[local] Instance keeps_refl h : Reflexive (keeps h).
Proof. intros st. unfold keeps. tauto. Qed.

#[local] Instance keeps_trans h : Transitive (keeps h).
Proof.
  intros s1 s2 s3 (H1 & H2 & H3 & H4 & H5 & H6) (G1 & G2 & G3 & G4 & G5 & G6).
  unfold keeps. repeat split; try congruence. auto.
Qed.

Lemma keeps_alterRow h ref f st :
  (forall row, tr_details (f row) = tr_details row) ->
  (forall row c', tr_cells (f row) !! 0 = Some c' ->
     cell_hide c' = h \/ exists c, tr_cells row !! 0 = Some c /\ cell_hide c = cell_hide c') ->
  keeps h st (setTable (alterRow ref f) st).
Proof.
  intros Hd Hc. unfold keeps. simpl. repeat split; try done.
  - by apply shape_alterRow.
  - intros ref' Hm row' c' Hrow' Hc'. rewrite rowAt_alterRow in Hrow'.
    destruct (decide (ref = ref')) as [<-|Hne]; [|by eapply Hm].
    destruct (rowAt (table st) ref) as [row|] eqn:Hrow; simplify_eq/=.
    destruct (Hc _ _ Hc') as [?|(c & Hc0 & <-)]; [done|]. by eapply Hm.
Qed.

Lemma keeps_setWrap h ref w st : keeps h st (setTable (alterRow ref (setWrap w)) st).
Proof. apply keeps_alterRow; [done|]. intros row c' Hc'. right. eauto. Qed.

Lemma keeps_setButton h ref ci b st : keeps h st (setTable (setButton ref ci b) st).
Proof.
  apply keeps_alterRow; [done|]. intros row c' Hc'. right. simpl in Hc'.
  destruct (decide (ci = 0)) as [->|Hne].
  - rewrite list_lookup_alter_eq in Hc'.
    destruct (tr_cells row !! 0) as [c|]; simplify_eq/=. eauto.
  - rewrite list_lookup_alter_ne in Hc' by done. eauto.
Qed.

Lemma keeps_mark h ref st :
  keeps h st (setTable (alterRow ref (setCells (alter (setCellHide h) 0))) st).
Proof.
  apply keeps_alterRow; [done|]. intros row c' Hc'. left. simpl in Hc'.
  rewrite list_lookup_alter_eq in Hc'.
  destruct (tr_cells row !! 0) as [c|]; by simplify_eq/=.
Qed.

Ltac step_ret := apply steps_ret; apply _.
Ltac step_throw := apply steps_throw; apply _.
Ltac step_bind := apply steps_bind; [apply _| |].

Lemma render_keeps h ref dref H : steps (keeps h) (_renderDetailsForRow ref dref H).
Proof.
  unfold _renderDetailsForRow.
  step_bind; [apply steps_get, _|]. intros st.
  destruct (rowAt (table st) ref) as [row|]; [|step_ret].
  destruct (rowAt (table st) dref) as [details|]; [|step_ret].
  destruct (tr_wrap details); [|step_ret].
  step_bind; [apply steps_modify; intros; apply keeps_setWrap|].
  intros _. step_bind.
  - destruct (detailsRender (options st)) as [render|]; [|step_ret].
    destruct (render _ _ _).
    + step_bind; [apply steps_modify; intros; apply keeps_setWrap|].
      intros _. step_ret.
    + step_bind; [apply steps_modify; intros; apply keeps_setWrap|].
      intros _. step_ret.
    + step_ret.
    + step_throw.
  - intros [|]; [step_ret|].
    apply steps_modify; intros; apply keeps_setWrap.
Qed.

Lemma updateToggle_keeps h a H ref : steps (keeps h) (updateToggle a H ref).
Proof.
  unfold updateToggle.
  step_bind; [apply steps_get, _|]. intros st.
  destruct (rowAt (table st) ref ≫= queryToggle) as [[ci btn]|]; [|step_ret].
  step_bind; [apply steps_modify; intros; apply keeps_setButton|].
  intros _. destruct (rowAt (table st) (ref.1, S ref.2)) as [details|]; [|step_ret].
  destruct (_ && _); [apply render_keeps|step_ret].
Qed.

Lemma updateRow_keeps a H ref : steps (keeps (negb a)) (updateRow a H ref).
Proof.
  unfold updateRow, markControlCell.
  step_bind; [apply steps_modify; intros; apply keeps_mark|].
  intros _. apply updateToggle_keeps.
Qed.

(** Whether it returns or raises, [updateRow] has marked the control cell. *)
Lemma updateRow_marks a H ref st o st' :
  updateRow a H ref st = (o, st') -> ctrlMarked (negb a) (table st') ref.
Proof.
  unfold updateRow, markControlCell, bind, modify. intros Hrun.
  apply (updateToggle_keeps (negb a)) in Hrun.
  destruct Hrun as (_ & _ & _ & _ & _ & Hk). apply Hk.
  intros row c Hrow Hc. simpl in Hrow. rewrite rowAt_alterRow, decide_True in Hrow by done.
  destruct (rowAt (table st) ref) as [row0|]; simplify_eq/=.
  rewrite list_lookup_alter_eq in Hc. destruct (tr_cells row0 !! 0); by simplify_eq/=.
Qed.

Lemma keeps_data_rows h st st' ref row' :
  keeps h st st' -> rowAt (table st') ref = Some row' -> tr_details row' = false ->
  ref ∈ dataRowsIn st ref.1.
Proof.
  intros (_ & _ & Hs & _) Hrow Hd. apply elem_of_dataRowsIn.
  destruct (shape_lookup _ _ _ _ Hs Hrow) as (row & Hr & Hdr). exists row. by rewrite Hdr.
Qed.

Lemma rowAt_body (t : Table) ref row :
  rowAt t ref = Some row -> ref.1 < length (t_bodies t).
Proof.
  unfold rowAt. destruct (t_bodies t !! ref.1) eqn:Hb; [|done].
  intros _. by eapply lookup_lt_Some.
Qed.

(** What [_updateTogglesVisibility] has done when it returns. *)
Lemma updateToggles_post a H st st' :
  _updateTogglesVisibility a H st = (Returns tt, st') ->
  (forall id h, head (headerCells (table st')) = Some id ->
     t_ths (table st') !! id = Some h -> th_hide h = negb a) /\
  (forall ref row, rowAt (table st') ref = Some row -> tr_details row = false ->
     ctrlMarked (negb a) (table st') ref) /\
  emitted st' = emitted st.
Proof.
  unfold _updateTogglesVisibility. intros Hrun.
  apply bind_returns in Hrun as (st0 & ? & [= <- <-] & Hrun).
  apply bind_returns in Hrun as ([] & st1 & Hhead & Hloop).
  assert (Hst1 : t_thead (table st1) = t_thead (table st) /\
                 t_bodies (table st1) = t_bodies (table st) /\
                 emitted st1 = emitted st /\
                 forall id h, head (headerCells (table st)) = Some id ->
                   t_ths (table st1) !! id = Some h -> th_hide h = negb a).
  { destruct (head (headerCells (table st))) as [ctrlTh|] eqn:Hh.
    - injection Hhead as <-. simpl. repeat split; try done.
      intros id h [= <-]. rewrite list_lookup_alter_eq.
      destruct (t_ths (table st) !! ctrlTh); intros; by simplify_eq/=.
    - injection Hhead as <-. done. }
  destruct Hst1 as (Hthead & Hbodies & Hem & Hth).
  set (body := fun b : nat => bind get (fun st' => forEach (dataRowsIn st' b) (updateRow a H))) in Hloop.
  assert (Hbody : forall b, steps (keeps (negb a)) (body b)).
  { intros b. unfold body. step_bind; [apply steps_get, _|]. intros s.
    apply steps_forEach; try apply _. intros ref. apply updateRow_keeps. }
  pose proof (steps_forEach (keeps (negb a)) _ _ Hbody _ _ _ Hloop) as Hk.
  split; [|split].
  - destruct Hk as (Hths & Hthd & _). intros id h. unfold headerCells.
    rewrite Hthd, Hths, Hthead. apply Hth.
  - intros ref row Hrow Hd.
    assert (Hin : ref.1 ∈ bodyIndices st).
    { unfold bodyIndices. apply elem_of_seq. split; [lia|]. simpl.
      rewrite <- Hbodies. destruct Hk as (_ & _ & Hs & _).
      rewrite <- (shape_length _ _ Hs). by eapply rowAt_body. }
    pose proof (forEach_post (keeps (negb a))
      (fun b s => forall r row, rowAt (table s) (b, r) = Some row ->
                    tr_details row = false -> ctrlMarked (negb a) (table s) (b, r))
      (bodyIndices st) body Hbody) as Hpost.
    destruct ref as [b r]. eapply Hpost; [| |exact Hloop|exact Hin|exact Hrow|exact Hd].
    + clear. intros b s s' Hrun r row Hrow Hd. unfold bind, get in Hrun.
      pose proof (steps_forEach (keeps (negb a)) _ _
                    (fun ref => updateRow_keeps a H ref) _ _ _ Hrun) as Hk.
      pose proof (keeps_data_rows _ _ _ (b, r) _ Hk Hrow Hd) as Hin.
      eapply (forEach_post (keeps (negb a))
                (fun ref s => ctrlMarked (negb a) (table s) ref)
                (dataRowsIn s b) (updateRow a H)); [| | |exact Hrun|exact Hin].
      * intros ref. apply updateRow_keeps.
      * intros ref s0 s1 Hr. eapply updateRow_marks, Hr.
      * intros ref s0 s1 Hm (_ & _ & _ & _ & _ & Hkk). by apply Hkk.
    + clear. intros b s s' HQ Hk r row Hrow Hd.
      destruct Hk as (_ & _ & Hs & _ & _ & Hkk). apply Hkk.
      destruct (shape_lookup _ _ _ _ Hs Hrow) as (row0 & Hr0 & Hd0).
      eapply HQ; [exact Hr0|congruence].
  - rewrite <- Hem. by destruct Hk as (_ & _ & _ & _ & -> & _).
Qed.


Lemma anyNonControl_true (S : gset Z) :
  anyNonControl S = true <-> exists i, i ∈ S /\ i ≠ 0%Z.
Proof.
  unfold anyNonControl. rewrite existsb_exists. split.
  - intros (i & Hi & Hne). exists i. split.
    + by apply elem_of_elements, list_elem_of_In.
    + apply negb_true_iff in Hne. by apply Z.eqb_neq.
  - intros (i & Hi & Hne). exists i. split.
    + by apply list_elem_of_In, elem_of_elements.
    + apply negb_true_iff. by apply Z.eqb_neq.
Qed.

Lemma negb_anyNonControl (S : gset Z) (b : bool) :
  b = negb (anyNonControl S) -> (b = true <-> ~ exists i, i ∈ S /\ i ≠ 0%Z).
Proof.
  intros ->. rewrite <- anyNonControl_true.
  destruct (anyNonControl S); simpl; split; done.
Qed.

(** *** Passes that cannot raise *)

Lemma returnsIfRendererDoes_bind {A B} h (m : M A) (k : A -> M B) :
  steps (keeps h) m -> returnsIfRendererDoes m -> (forall a, returnsIfRendererDoes (k a)) ->
  returnsIfRendererDoes (bind m k).
Proof.
  intros Hs Hm Hk st Hnone. destruct (Hm st Hnone) as (a & st1 & Hrun).
  unfold bind. rewrite Hrun. apply Hk.
  destruct (Hs _ _ _ Hrun) as (_ & _ & _ & -> & _). done.
Qed.

Lemma returnsIfRendererDoes_forEach {X} h (l : list X) body :
  (forall x, steps (keeps h) (body x)) -> (forall x, returnsIfRendererDoes (body x)) ->
  returnsIfRendererDoes (forEach l body).
Proof.
  intros Hs Hb. induction l as [|x l IH]; simpl.
  - intros st _. by eexists _, _.
  - eapply returnsIfRendererDoes_bind; eauto.
Qed.

Lemma render_returnsIfRendererDoes ref dref H :
  returnsIfRendererDoes (_renderDetailsForRow ref dref H).
Proof.
  intros st Hnone. unfold _renderDetailsForRow, bind, get, modify, ret.
  destruct (rowAt (table st) ref); [|by eexists _, _].
  destruct (rowAt (table st) dref) as [d|]; [|by eexists _, _].
  destruct (tr_wrap d); [|by eexists _, _].
  simpl. destruct (detailsRender (options st)) as [render|] eqn:Hr; [|by eexists _, _].
  specialize (Hnone render Hr).
  match goal with |- context [render ?r ?h ?c] =>
    specialize (Hnone r h c); destruct (render r h c) end;
    try by eexists _, _.
  by destruct (Hnone error).
Qed.

Lemma updateToggle_returnsIfRendererDoes a H ref : returnsIfRendererDoes (updateToggle a H ref).
Proof.
  intros st Hnone. unfold updateToggle, bind, get, modify, ret.
  destruct (rowAt (table st) ref ≫= queryToggle) as [[ci btn]|]; [|by eexists _, _].
  destruct (rowAt (table st) (ref.1, S ref.2)) as [d|]; [|by eexists _, _].
  destruct (_ && _); [|by eexists _, _].
  by apply render_returnsIfRendererDoes.
Qed.

Lemma updateRow_returnsIfRendererDoes a H ref : returnsIfRendererDoes (updateRow a H ref).
Proof.
  intros st Hnone. unfold updateRow, markControlCell, bind, modify.
  by apply updateToggle_returnsIfRendererDoes.
Qed.

Lemma updateToggles_returnsIfRendererDoes a H :
  returnsIfRendererDoes (_updateTogglesVisibility a H).
Proof.
  intros st Hnone. unfold _updateTogglesVisibility.
  unfold bind at 1. unfold get at 1.
  assert (Hloop : returnsIfRendererDoes (forEach (bodyIndices st) (fun b =>
            bind get (fun st' => forEach (dataRowsIn st' b) (updateRow a H))))).
  { apply (returnsIfRendererDoes_forEach (negb a)).
    - intros b. step_bind; [apply steps_get, _|]. intros s.
      apply steps_forEach; try apply _. intros ref. apply updateRow_keeps.
    - intros b s Hs. unfold bind at 1. unfold get at 1.
      apply (returnsIfRendererDoes_forEach (negb a)); [|apply updateRow_returnsIfRendererDoes|done].
      intros ref. apply updateRow_keeps. }
  unfold bind. destruct (head (headerCells (table st))); simpl; by apply Hloop.
Qed.

Lemma refit_returnsIfRendererDoes initial : returnsIfRendererDoes (_refit initial).
Proof.
  intros st Hnone. unfold _refit. unfold bind at 1. unfold get at 1.
  destruct (_unsupportedSpan st); [by eexists _, _|].
  unfold bind at 1. unfold modify at 1.
  destruct (updateToggles_returnsIfRendererDoes (anyNonControl (refitHiddenSet st))
              (refitHiddenSet st) (_applyVisibility (refitHiddenSet st) st) Hnone)
    as ([] & st1 & Hrun).
  unfold bind. rewrite Hrun. by eexists _, _.
Qed.

(** C5. The control-column visibility rule: a refit pass returns whenever the
    custom renderer, if any, does not raise, and after a pass that has returned the
    header cell at index 0 and the first cell of every data row carry the
    hidden marker if and only if the hidden-set computed for the pass holds
    no index other than 0; the pass reports the same in its [refit] event. *)
Theorem control_column_rule initial st :
  (rendererReturns (options st) ->
   exists st', _refit initial st = (Returns tt, st')) /\
  (forall st', _refit initial st = (Returns tt, st') -> _unsupportedSpan st = false ->
     let hiddenSet := refitHiddenSet st in
     (forall id h, head (headerCells (table st')) = Some id ->
        t_ths (table st') !! id = Some h ->
        th_hide h = true <-> ~ exists i, i ∈ hiddenSet /\ i ≠ 0%Z) /\
     (forall ref row c, rowAt (table st') ref = Some row -> tr_details row = false ->
        tr_cells row !! 0 = Some c ->
        cell_hide c = true <-> ~ exists i, i ∈ hiddenSet /\ i ≠ 0%Z) /\
     emitted st' = emitted st ++ [EvRefit initial (anyNonControl hiddenSet)]).
Proof.
  split.
  - intros Hnone. destruct (refit_returnsIfRendererDoes initial st Hnone) as ([] & st' & Hrun).
    eauto.
  - intros st' Hrun Hspan hiddenSet. unfold _refit in Hrun.
    unfold bind at 1 in Hrun. unfold get at 1 in Hrun. rewrite Hspan in Hrun.
    unfold bind at 1 in Hrun. unfold modify at 1 in Hrun.
    apply bind_returns in Hrun as ([] & st1 & Hupd & Hemit).
    injection Hemit as <-.
    apply updateToggles_post in Hupd as (Hth & Hrows & Hem).
    fold hiddenSet in Hth, Hrows. split; [|split].
    + intros id h Hid Hh. apply negb_anyNonControl. by eapply Hth.
    + intros ref row c Hrow Hd Hc. apply negb_anyNonControl. by eapply Hrows.
    + simpl. by rewrite Hem.
Qed.


Lemma control_column_rule_witness :
  let st := setTable (Orders.setLayout Orders.tight) (Orders.attached defaults Orders.roomy) in
  exists st', _refit false st = (Returns tt, st') /\
    (forall c, (rowAt (table st') (0, 2) ≫= fun row => tr_cells row !! 0) = Some c ->
       cell_hide c = true <-> ~ exists i, i ∈ refitHiddenSet st /\ i ≠ 0%Z) /\
    emitted st' = emitted st ++ [EvRefit false (anyNonControl (refitHiddenSet st))].
Proof.
  intros st. destruct (control_column_rule false st) as [Hret Hpost].
  destruct (Hret ltac:(intros r Hr; discriminate Hr)) as [st' Hrun].
  exists st'. split; [done|].
  destruct (Hpost st' Hrun eq_refl) as (_ & Hrows & Hem). split; [|done].
  intros c Hc. destruct (rowAt (table st') (0, 2)) as [row|] eqn:Hrow; [|done].
  simpl in Hc. apply (Hrows (0, 2) row c Hrow); [|done].
  assert (Hrun' : (_refit false st).2 = st') by by rewrite Hrun.
  assert (Hd : tr_details <$> rowAt (table (_refit false st).2) (0, 2) = Some false)
    by by vm_compute.
  rewrite Hrun', Hrow in Hd. by injection Hd.
Defined.

(** *** Locked columns *)

Lemma refitMeta_index (cm : list ColumnInfo) :
  Solver.index <$> (refitMeta <$> cm) = index <$> cm.
Proof. rewrite <- list_fmap_compose. by apply list_fmap_ext. Qed.

(** [_buildColumns] numbers the columns by position. *)
Lemma buildColumns_index st :
  index <$> columnsMeta (_buildColumns st) =
  Z.of_nat <$> seq 0 (length (headerCells (table st))).
Proof.
  unfold _buildColumns. simpl. rewrite fmap_imap.
  rewrite (imap_ext _ (fun i _ => Z.of_nat i)) by done.
  apply imap_seq_0.
Qed.

Lemma buildColumns_NoDup st : NoDup (index <$> columnsMeta (_buildColumns st)).
Proof.
  rewrite buildColumns_index. apply NoDup_fmap_2; [apply _|apply NoDup_seq].
Qed.

(** C2. Locked columns are never hidden: index 0 is never in the returned
    hidden-set; on return no locked column is marked hidden; for columns
    with pairwise distinct indices no locked column has its index in the
    returned hidden-set; the shrink loop picks only a visible, unlocked
    column other than the control column; the grow-back loop adds no index;
    and in a refit pass neither the control column nor a column of priority 1
    is in the hidden-set. *)
Theorem locked_never_hidden :
  (forall cm a, 0%Z ∉ Solver.computeHiddenColumns cm a) /\
  (forall cm a p c, Solver.finalCols cm a !! p = Some c ->
     Solver.lock (Solver.meta c) = true -> Solver.hidden c = false) /\
  (forall cm a, NoDup (Solver.index <$> cm) ->
     forall c, c ∈ cm -> Solver.lock c = true ->
       Solver.index c ∉ Solver.computeHiddenColumns cm a) /\
  (forall cols r,
     head (Solver.sortBy Solver.worstFirst (Solver.candidates cols)) = Some r ->
     Solver.hidden r.2 = false /\ Solver.lock (Solver.meta r.2) = false /\
     Solver.index (Solver.meta r.2) ≠ 0%Z) /\
  (forall g cols a i, i ∈ Solver.hiddenIndices (Solver.growBack g cols a) ->
     i ∈ Solver.hiddenIndices cols) /\
  (forall st col, NoDup (index <$> columnsMeta st) -> col ∈ columnsMeta st ->
     index col = 0%Z \/ priority col = 1%Z -> index col ∉ refitHiddenSet st).
Proof.
  assert (Hflag : forall cm a p c, Solver.finalCols cm a !! p = Some c ->
            Solver.lock (Solver.meta c) = true -> Solver.hidden c = false).
  { intros cm a p c Hp Hl. destruct (Solver.hidden c) eqn:Hh; [|done].
    destruct (SolverFacts.final_hiddenOk cm a p c Hp Hh) as [Hl' _]. congruence. }
  assert (Hset : forall cm a, NoDup (Solver.index <$> cm) ->
            forall c, c ∈ cm -> Solver.lock c = true ->
              Solver.index c ∉ Solver.computeHiddenColumns cm a).
  { intros cm a Hnd c Hc Hl Hin.
    apply list_elem_of_lookup in Hc as [p Hp].
    assert (exists d, Solver.finalCols cm a !! p = Some d /\ Solver.meta d = c) as (d & Hd & <-).
    { rewrite <- (SolverFacts.final_meta cm a) in Hp. rewrite list_lookup_fmap in Hp.
      destruct (Solver.finalCols cm a !! p) as [d|]; simplify_eq/=. eauto. }
    apply (SolverFacts.hidden_iff_in_set cm a p d Hnd Hd) in Hin.
    rewrite (Hflag cm a p d Hd Hl) in Hin. done. }
  split; [|split; [exact Hflag|split; [exact Hset|split; [|split]]]].
  - intros cm a Hin. apply SolverFacts.elem_of_computeHiddenColumns in Hin
      as (p & c & Hp & Hh & Hi).
    by destruct (SolverFacts.final_hiddenOk cm a p c Hp Hh).
  - intros cols r Hr. apply SolverFacts.worst_candidate in Hr as [_ Hh].
    by apply SolverFacts.hideable_inv.
  - intros g cols a i Hi. apply SolverFacts.elem_of_hiddenIndices in Hi
      as (p & c' & Hp & Hh & Hidx).
    destruct (SolverFacts.growBack_unhides g cols a) as [Hm Hu].
    destruct (Hu p c' Hp Hh) as (c & Hc & Hhc).
    apply SolverFacts.elem_of_hiddenIndices. exists p, c. split; [done|]. split; [done|].
    by rewrite <- (SolverFacts.same_meta _ _ _ _ _ Hm Hc Hp).
  - intros st col Hnd Hcol Hlocked. unfold refitHiddenSet.
    apply (Hset _ _ ltac:(by rewrite refitMeta_index) (refitMeta col)).
    + by apply list_elem_of_fmap_2.
    + simpl. destruct Hlocked as [->| ->]; [done|]. by rewrite orb_true_r.
Qed.

Lemma locked_never_hidden_witness :
  (1%Z ∉ Solver.computeHiddenColumns Solver.scenarioColumns 240) /\
  (1%Z ∉ refitHiddenSet (setTable (Orders.setLayout Orders.cramped)
                            (Orders.attached defaults Orders.roomy))).
Proof.
  destruct locked_never_hidden as (_ & _ & Hset & _ & _ & Hrefit). split.
  - apply (Hset Solver.scenarioColumns 240%Z ltac:(by apply (bool_decide_unpack _))
             (Solver.ColumnMeta_mk 1 200 1 true)).
    + apply (bool_decide_unpack _). vm_compute. exact I.
    + reflexivity.
  - apply (Hrefit _ (ColumnInfo_mk 1 0 1 200 true)).
    + apply (bool_decide_unpack _). vm_compute. exact I.
    + apply (bool_decide_unpack _). vm_compute. exact I.
    + by right.
Defined.

End ControllerFacts.

(** ** Rows named by value, attaching and detaching *)

Module LifecycleFacts.
Import Dom Controller Facade Orders.

(** [Number(...)] on a number, a string, a boolean, [null] or [undefined]
    returns and leaves the controller alone. *)
Lemma toNumber_primitive (stringToNumber : string -> Number) v st :
  v ≠ VSymbol -> (forall number, v ≠ VOther number) ->
  exists n, toNumber stringToNumber v st = (Returns n, st).
Proof.
  intros Hsym Hother.
  destruct v as [ref|n|s|b| | | |number];
    [by exists NNaN | by exists n | by exists (stringToNumber s)
    |by exists (NInt (if b then 1 else 0)) | by exists (NInt 0) | by exists NNaN
    |by destruct Hsym | by destruct (Hother number)].
Qed.

(** Once the argument is converted, a number that is not the index of a data
    row resolves to no row, in the state the conversion left. *)
Lemma no_index_no_row (stringToNumber : string -> Number) st v n st' :
  (forall ref, v ≠ VRow ref) ->
  toNumber stringToNumber v st = (Returns n, st') ->
  (forall z, n = NInt z -> ~ (0 <= z < Z.of_nat (length (allRows st')))%Z) ->
  _resolveDataRow stringToNumber v st = (Returns None, st').
Proof.
  intros Hrow Hnum Hidx.
  assert (Hres : _resolveDataRow stringToNumber v st
                 = bind (toNumber stringToNumber v) (fun idx =>
                     match idx with
                     | NInt idx =>
                         let! st := get in
                         ret (if (0 <=? idx)%Z then allRows st !! Z.to_nat idx else None)
                     | _ => ret None
                     end) st).
  { destruct v; try done. by destruct (Hrow ref). }
  rewrite Hres. unfold bind at 1. rewrite Hnum.
  destruct n as [z| | |]; try done.
  unfold bind, get, ret. destruct (0 <=? z)%Z eqn:Hz; [|done].
  apply Z.leb_le in Hz. f_equal. f_equal.
  apply lookup_ge_None. specialize (Hidx z eq_refl). lia.
Qed.

(** An exception raised by the conversion of the argument leaves the two
    calls as it is, in the state the conversion left. *)
Lemma conversion_exception_propagates (stringToNumber : string -> Number) st v e st' :
  (forall ref, v ≠ VRow ref) ->
  toNumber stringToNumber v st = (Throws e, st') ->
  _resolveDataRow stringToNumber v st = (Throws e, st') /\
  expandRow stringToNumber v st = (Throws e, st') /\
  collapseRow stringToNumber v st = (Throws e, st').
Proof.
  intros Hrow Hnum.
  assert (Hthrows : _resolveDataRow stringToNumber v st = (Throws e, st')).
  { destruct v; try by (simpl; unfold bind; simpl in Hnum; rewrite Hnum).
    by destruct (Hrow ref). }
  split; [done|]. unfold expandRow, collapseRow, bind. by rewrite Hthrows.
Qed.

(** C10, as the specification states it, fails.  On the fitted table with
    one column hidden, [null] is neither a row element nor a number, yet
    [expandRow(null)] expands the first row and emits [expand] and [toggle]:
    [Number(null)] is [0].  A Symbol is neither, and the call raises. *)
Lemma row_resolution_coerces :
  let st := (resized tight (attached defaults roomy)).2 in
  namesNoRow st VNull /\ namesNoRow st VSymbol /\
  (exists st', expandRow (fun _ => NNaN) VNull st = (Returns tt, st') /\
     (aria_expanded ∘ snd <$> (rowAt (table st) (0, 0) ≫= queryToggle)) = Some false /\
     (aria_expanded ∘ snd <$> (rowAt (table st') (0, 0) ≫= queryToggle)) = Some true /\
     emitted st' = emitted st ++ [EvExpand (0, 0); EvToggle (0, 0) true]) /\
  (exists e, expandRow (fun _ => NNaN) VSymbol st = (Throws e, st)).
Proof.
  cbv zeta. split; [by split|]. split; [by split|]. split.
  - eexists. split; [vm_compute; reflexivity|]. by vm_compute.
  - eexists. vm_compute. reflexivity.
Qed.

(** C10. Row resolution has no effect when it fails: an argument of
    [expandRow] or [collapseRow] that is not a row element and whose
    conversion [Number(...)] returns, leaving the controller alone, a number
    that is not the index of a data row resolves to no row, and both calls
    return normally with the controller, its table and the list of emitted
    events unchanged. *)
Theorem row_resolution_total (stringToNumber : string -> Number) st v n :
  (forall ref, v ≠ VRow ref) ->
  toNumber stringToNumber v st = (Returns n, st) ->
  (forall z, n = NInt z -> ~ (0 <= z < Z.of_nat (length (allRows st)))%Z) ->
  _resolveDataRow stringToNumber v st = (Returns None, st) /\
  expandRow stringToNumber v st = (Returns tt, st) /\
  collapseRow stringToNumber v st = (Returns tt, st).
Proof.
  intros Hrow Hnum Hidx.
  pose proof (no_index_no_row stringToNumber st v n st Hrow Hnum Hidx) as Hnone.
  split; [exact Hnone|].
  unfold expandRow, collapseRow, bind. rewrite Hnone. by split.
Qed.

Lemma row_resolution_total_witness :
  expandRow (fun _ => NNaN) (VString "third") (attached defaults roomy)
    = (Returns tt, attached defaults roomy) /\
  collapseRow (fun _ => NNaN) (VNumber (NInt 2)) (attached defaults roomy)
    = (Returns tt, attached defaults roomy).
Proof.
  split.
  - apply (row_resolution_total (fun _ => NNaN) (attached defaults roomy)
             (VString "third") NNaN).
    + intros ref. discriminate.
    + reflexivity.
    + intros z. discriminate.
  - apply (row_resolution_total (fun _ => NNaN) (attached defaults roomy)
             (VNumber (NInt 2)) (NInt 2)).
    + intros ref. discriminate.
    + reflexivity.
    + intros z [= <-]. vm_compute. intros [_ H]. discriminate H.
Defined.

(** C8, as the specification states it, fails: attaching the table without a
    header raises and registers nothing, but the table is no longer what it
    was. *)
Lemma attach_failure_changes_table :
  lacksHeaderOrBody (headless roomy) /\
  exists e w', set 8 id page = (Throws e, w') /\
    _tables w' = _tables page /\
    document w' !! 8 ≠ document page !! 8.
Proof.
  split; [by left|].
  eexists _, _. split; [vm_compute; reflexivity|]. split; [done|].
  vm_compute. discriminate.
Qed.

(** C8, amended. Attaching a table that is not attached yet and lacks a
    header row or a body section raises, registers no controller, and leaves
    the header, the sections, the rows and the cells of the table as they
    were; the table keeps the root class and the inline width and
    table-layout that the constructor sets before it looks at the structure. *)
Theorem attach_failure target merge w t :
  document w !! target = Some (ElTable t) ->
  _tables w !! target = None ->
  lacksHeaderOrBody t ->
  exists e t',
    set target merge w =
      (Throws e, World_mk (<[target := ElTable t']> (document w)) (globalOptions w)
                          (_tables w) (S (tableSeq w))) /\
    t_id t' = t_id t /\ t_ths t' = t_ths t /\ t_thead t' = t_thead t /\
    t_bodies t' = t_bodies t /\ t_layout t' = t_layout t /\
    t_root t' = true /\
    t_style_width t' =
      (if String.eqb (t_style_width t) "" then "100%" else t_style_width t) /\
    t_style_tableLayout t' =
      (if String.eqb (t_style_tableLayout t) ""
       then tableLayout (merge (globalOptions w)) else t_style_tableLayout t).
Proof.
  intros Hdoc Hreg Hlack. unfold set. rewrite Hdoc, Hreg.
  unfold construct, _initOnce, newController.
  unfold bind, modify, get, throw. simpl.
  destruct (String.eqb (t_style_width t) "") eqn:Hw;
    destruct (String.eqb (t_style_tableLayout t) "") eqn:Hl; simpl;
    rewrite ?Hw, ?Hl; simpl;
    (destruct (t_thead t) as [[|row rows]|] eqn:Hh;
     [eexists _, _; split; [reflexivity|]; simpl; rewrite ?Hw, ?Hl; by repeat split
     |destruct (t_bodies t) as [|body bodies] eqn:Hb;
       [eexists _, _; split; [reflexivity|]; simpl; rewrite ?Hw, ?Hl; by repeat split
       |exfalso; destruct Hlack as [?|[?|?]]; congruence]
     |eexists _, _; split; [reflexivity|]; simpl; rewrite ?Hw, ?Hl; by repeat split]).
Qed.

Lemma attach_failure_witness :
  exists e t',
    set 8 id page =
      (Throws e, World_mk (<[8 := ElTable t']> (document page)) (globalOptions page)
                          (_tables page) (S (tableSeq page))) /\
    t_bodies t' = t_bodies (headless roomy) /\ t_root t' = true.
Proof.
  destruct (attach_failure 8 id page (headless roomy)) as (e & t' & Hset & H).
  - reflexivity.
  - reflexivity.
  - by left.
  - exists e, t'. tauto.
Defined.


(** C6. Toggling a row while no column is hidden is not a no-op in the code:
    [toggle] never looks at the hidden-set before it acts.  On the attached
    [orders] table in a roomy container, where the pass has hidden nothing,
    the call opens the panel of the row and emits [expand] and [toggle]. *)
Theorem toggle_with_nothing_hidden :
  let st := attached defaults roomy in
  refitHiddenSet st = ∅ /\ anyNonControl (headerHiddenSet st) = false /\
  exists st', toggle (0, 0) st = (Returns tt, st') /\
    emitted st' = emitted st ++ [EvExpand (0, 0); EvToggle (0, 0) true] /\
    tr_hidden <$> rowAt (table st) (0, 1) = Some true /\
    tr_hidden <$> rowAt (table st') (0, 1) = Some false /\
    (aria_expanded ∘ snd <$> (rowAt (table st) (0, 0) ≫= queryToggle)) = Some false /\
    (aria_expanded ∘ snd <$> (rowAt (table st') (0, 0) ≫= queryToggle)) = Some true.
Proof.
  cbv zeta. split; [by vm_compute|]. split; [by vm_compute|].
  eexists. split; [vm_compute; reflexivity|]. by vm_compute.
Qed.

(** The same through the public [expandRow], whose declaration promises a
    no-op when nothing is hidden. *)
Lemma expandRow_with_nothing_hidden :
  let st := attached defaults roomy in
  exists st', expandRow (fun _ => NNaN) (VNumber (NInt 0)) st = (Returns tt, st') /\
    emitted st' = emitted st ++ [EvExpand (0, 0); EvToggle (0, 0) true].
Proof. cbv zeta. eexists. split; [vm_compute; reflexivity|]. by vm_compute. Qed.

(** [expandAll], next to it, does look. *)
Lemma expandAll_with_nothing_hidden :
  expandAll (attached defaults roomy) = (Returns tt, attached defaults roomy).
Proof. by vm_compute. Qed.

(** C7. A renderer that raises is not isolated.  With a renderer that always
    raises, [toggle] on a row of the fitted table raises too: the toggle
    already says expanded, the panel is still hidden and no event has been
    emitted.  With a renderer that raises once two columns are hidden, the
    refit pass that finds the open row raises: no [refit] event is emitted
    and the second row still carries the label of the pass before. *)
Theorem renderer_exception_propagates :
  (let st := (resized tight (attached (withRender throwingRender) roomy)).2 in
   exists st', toggle (0, 0) st = (Throws "boom", st') /\
     emitted st' = emitted st /\
     (aria_expanded ∘ snd <$> (rowAt (table st') (0, 0) ≫= queryToggle)) = Some true /\
     tr_hidden <$> rowAt (table st') (0, 1) = Some true) /\
  (let st := (toggle (0, 0) (resized tight (attached (withRender fragileRender) roomy)).2).2 in
   exists st', resized cramped st = (Throws "boom", st') /\
     emitted st' = emitted st /\
     size (refitHiddenSet (setTable (setLayout cramped) st)) = 2 /\
     (aria_label ∘ snd <$> (rowAt (table st') (0, 2) ≫= queryToggle))
       = Some "Show more (1 hidden)").
Proof.
  cbv zeta. split.
  - eexists. split; [vm_compute; reflexivity|]. by vm_compute.
  - eexists. split; [vm_compute; reflexivity|]. by vm_compute.
Qed.

(** The other half of the claim holds: a renderer that returns nothing usable
    leaves the panel to the default list, as if no renderer were configured. *)
Lemma unusable_result_is_default st ref dref H render :
  detailsRender (options st) = Some render ->
  (forall row hiddenColumns cells, render row hiddenColumns cells = RenderOther) ->
  (_renderDetailsForRow ref dref H st).1 = Returns tt /\
  table (_renderDetailsForRow ref dref H st).2 =
  table (_renderDetailsForRow ref dref H (setOptions (withoutRenderer (options st)) st)).2.
Proof.
  intros Hr Hother. unfold _renderDetailsForRow, bind, get, modify, ret. simpl.
  destruct (rowAt (table st) ref); [|done].
  destruct (rowAt (table st) dref) as [d|]; [|done].
  destruct (tr_wrap d); [|done].
  rewrite Hr. simpl. by rewrite Hother.
Qed.


Lemma unusable_result_falls_back :
  let custom := (toggle (0, 0) (resized tight (attached (withRender fragileRender) roomy)).2) in
  let plain := (toggle (0, 0) (resized tight (attached defaults roomy)).2) in
  custom.1 = Returns tt /\
  table custom.2 = table plain.2 /\
  (tr_wrap <$> rowAt (table custom.2) (0, 1))
    = Some (Some (Wrap_mk "Details for Ann" [ItemDetail "Amount: " "12"])).
Proof. by vm_compute. Qed.

(** C9. [destroy] is not idempotent.  The first call on the attached
    [orders] table gives back the three header cells and the three cells of
    each row; the second call deletes the first real column, header and
    cells, and emits [destroy] again. *)
Theorem destroy_twice :
  let once := destroy (attached defaults roomy) in
  let twice := destroy once in
  t_thead (table once) = t_thead (orders roomy) /\
  t_thead (table twice) = Some [[1; 2]] /\
  (fun rows : list Tr => cell_text <$> (rows ≫= tr_cells)) <$> t_bodies (table once)
    = [["Ann"; "12"; "n/a"; "Bob"; "7"; "late"]] /\
  (fun rows : list Tr => cell_text <$> (rows ≫= tr_cells)) <$> t_bodies (table twice)
    = [["12"; "n/a"; "7"; "late"]] /\
  emitted once = [EvRefit true false; EvDestroy] /\
  emitted twice = [EvRefit true false; EvDestroy; EvDestroy].
Proof. by vm_compute. Qed.

End LifecycleFacts.

(** ** More about the solver *)

Module SolverMore.
Import Solver SolverFacts SolverNotions.
Local Open Scope Z_scope.

Lemma sumMin_copyColumns cm : sumMin (copyColumns cm) = survivingSum cm ∅.
Proof.
  rewrite <- (copyColumns_meta cm) at 2.
  rewrite survivingSum_sumOver, sumMin_sumOver. apply sumOver_ext.
  intros p c Hp. rewrite (copyColumns_visible _ _ _ Hp). simpl. symmetry.
  by apply bool_decide_eq_true.
Qed.

Lemma growPass_no_hidden cols a :
  hiddenCount cols = 0%nat -> growPass cols a = (cols, false).
Proof.
  intros H0. unfold growPass.
  assert (hiddenRefs cols = []) as ->; [|done].
  apply length_zero_iff_nil. unfold hiddenRefs, refs.
  rewrite (length_filter_imap hidden) by done. exact H0.
Qed.

Lemma shrink_fits g cols a : sumMin cols <= a -> shrink g cols a = cols.
Proof.
  intros Hfit. destruct g; simpl; destruct (sumMin cols >? a) eqn:Hgt; try done; lia.
Qed.

Lemma growBack_no_hidden g cols a :
  hiddenCount cols = 0%nat -> growBack g cols a = cols.
Proof.
  intros H0. destruct g; simpl; [done|]. by rewrite growPass_no_hidden.
Qed.

(** X1. When all the columns fit, nothing is hidden. *)
Theorem nothing_hidden_when_it_fits cm a :
  survivingSum cm ∅ <= a -> computeHiddenColumns cm a = ∅.
Proof.
  intros Hfit. unfold computeHiddenColumns, finalCols.
  rewrite shrink_fits by (by rewrite sumMin_copyColumns).
  rewrite growBack_no_hidden by apply copyColumns_hiddenCount.
  unfold hiddenIndices.
  assert (List.filter hidden (copyColumns cm) = []) as ->; [|done].
  apply length_zero_iff_nil. apply copyColumns_hiddenCount.
Qed.

Lemma nothing_hidden_when_it_fits_witness :
  computeHiddenColumns scenarioColumns 700 = ∅.
Proof. apply nothing_hidden_when_it_fits. vm_compute. discriminate. Defined.


Lemma growBack_hiddenCount g cols a :
  (hiddenCount (growBack g cols a) <= hiddenCount cols)%nat.
Proof.
  revert cols. induction g as [|g IH]; intros cols; simpl; [lia|].
  destruct (growPass_spec cols a) as (_ & _ & Hf & Ht).
  destruct (growPass cols a) as [cols' [|]]; simpl in *.
  - specialize (Ht eq_refl). specialize (IH cols'). lia.
  - destruct (Hf eq_refl) as [-> _]. lia.
Qed.

Lemma size_list_to_set_le (l : list Z) : (size (list_to_set (C:=gset Z) l) <= length l)%nat.
Proof.
  induction l as [|x l IH].
  - by rewrite list_to_set_nil, size_empty.
  - rewrite list_to_set_cons, size_union_alt, size_singleton. cbn [length].
    assert (list_to_set (C:=gset Z) l ∖ {[x]} ⊆ list_to_set l) as Hsub
      by (intros y Hy; by apply elem_of_difference in Hy as [Hy _]).
    apply subseteq_size in Hsub. lia.
Qed.

(** X2. The returned hidden-set holds only indices of columns of the
    argument that are unlocked and are not the control column, and it never
    holds more than 200 of them. *)
Theorem hidden_set_bounded cm a :
  (forall i, i ∈ computeHiddenColumns cm a ->
     exists c, c ∈ cm /\ index c = i /\ lock c = false /\ index c ≠ 0) /\
  (size (computeHiddenColumns cm a) <= 200)%nat.
Proof.
  split.
  - intros i Hi. apply elem_of_computeHiddenColumns in Hi as (p & c & Hp & Hh & Hi).
    destruct (final_hiddenOk cm a p c Hp Hh) as [Hl H0].
    exists (meta c). repeat split; try done.
    apply list_elem_of_lookup. exists p. by apply (lookup_final_meta cm a).
  - unfold computeHiddenColumns. etrans; [apply size_list_to_set_le|].
    unfold hiddenIndices. rewrite length_fmap. fold (hiddenCount (finalCols cm a)).
    unfold finalCols. etrans; [apply growBack_hiddenCount|].
    pose proof (shrink_hiddenCount 200 (copyColumns cm) a) as Hs.
    rewrite copyColumns_hiddenCount in Hs. lia.
Qed.

Lemma hidden_set_bounded_witness :
  exists c, c ∈ scenarioColumns /\ index c = 3 /\ lock c = false /\ index c ≠ 0.
Proof.
  apply (proj1 (hidden_set_bounded scenarioColumns 500)).
  apply (bool_decide_unpack _). vm_compute. exact I.
Defined.

(** *** When the locked columns alone do not fit *)

Lemma fixedSum_sumOver cols :
  fixedSum (meta <$> cols) = sumOver (fun c => negb (hideableMeta (meta c))) cols.
Proof.
  unfold fixedSum. induction cols as [|c cols IH]; [done|].
  rewrite fmap_cons. cbn [List.filter sumOver].
  destruct (negb _); [|by rewrite IH].
  cbn [foldl]. rewrite foldl_add_acc, IH. lia.
Qed.

Lemma fixedSum_le_sumMin cm cols :
  Forall (fun c => 0 <= min c) cm -> meta <$> cols = cm -> hiddenOk cols ->
  fixedSum cm <= sumMin cols.
Proof.
  intros Hpos Hm Hok. rewrite <- Hm, fixedSum_sumOver, sumMin_sumOver.
  apply sumOver_le.
  - intros p c Hp. rewrite Forall_forall in Hpos. apply Hpos.
    rewrite <- Hm. apply list_elem_of_fmap_2, list_elem_of_lookup. eauto.
  - intros p c Hp Hfix. destruct (hidden c) eqn:Hh; [|done].
    destruct (Hok p c Hp Hh) as [Hl H0]. unfold hideableMeta in Hfix.
    rewrite Hl in Hfix. apply Z.eqb_neq in H0. by rewrite H0 in Hfix.
Qed.

(** A state in which no hidden column can be shown is a fixpoint of the
    grow-back loop. *)
Lemma growBack_fixpoint g cols a : minimalAt a cols -> growBack g cols a = cols.
Proof.
  intros Hmin.
  assert (Hpass : growPass cols a = (cols, false)).
  { unfold growPass.
    assert (forall l : list Ref, (forall r, r ∈ l -> cols !! r.1 = Some r.2 /\ hidden r.2 = true) ->
              foldl (tryUnhide a) (cols, false) l = (cols, false)) as Hl.
    { induction l as [|r l IH]; intros Hin; [done|]. simpl.
      destruct (Hin r) as [Hr Hh]; [left|].
      destruct (tryUnhide_hidden a (cols, false) r r.2 Hr Hh) as [[_ Hfit]|[-> _]].
      - simpl in Hfit. rewrite (sumMin_setHidden _ _ _ _ Hr) in Hfit.
        unfold contrib in Hfit. rewrite Hh in Hfit.
        specialize (Hmin _ _ Hr Hh). lia.
      - apply IH. intros r' Hr'. apply Hin. by right. }
    apply Hl. intros r Hr. apply elem_of_hiddenRefs.
    by rewrite <- (sortBy_perm bestFirst). }
  destruct g as [|g]; simpl; [done|]. by rewrite Hpass.
Qed.

(** X3. Overflow is accepted: when the minimum widths are non-negative, at
    most 200 columns are hideable and the columns that cannot be hidden
    already exceed [available], the solver hides exactly the hideable
    columns. *)
Theorem overflow_hides_all_hideable cm a :
  Forall (fun c => 0 <= min c) cm ->
  (length (List.filter hideableMeta cm) <= 200)%nat ->
  a < fixedSum cm ->
  computeHiddenColumns cm a = list_to_set (index <$> List.filter hideableMeta cm).
Proof.
  intros Hpos Hlen Hover. unfold computeHiddenColumns, finalCols.
  set (s := shrink 200 (copyColumns cm) a).
  assert (Hm : meta <$> s = cm) by (unfold s; by rewrite shrink_meta, copyColumns_meta).
  assert (Hok : hiddenOk s).
  { apply shrink_hiddenOk. intros p c Hp Hc.
    by rewrite (copyColumns_visible _ _ _ Hp) in Hc. }
  pose proof (fixedSum_le_sumMin cm s Hpos Hm Hok) as Hsum.
  destruct (shrink_exhausts 200 (copyColumns cm) a) as [Hfit|Hnone];
    [by rewrite hideableCount_copy|fold s in Hfit; lia|]. fold s in Hnone.
  rewrite growBack_fixpoint.
  2:{ intros p c Hp Hh. rewrite Forall_forall in Hpos.
      assert (0 <= min (meta c)); [|lia]. apply Hpos. rewrite <- Hm.
      apply list_elem_of_fmap_2, list_elem_of_lookup. eauto. }
  f_equal. unfold hiddenIndices. rewrite <- Hm. clear -Hok Hnone.
  assert (Hiff : forall p c, s !! p = Some c -> hidden c = hideableMeta (meta c)).
  { intros p c Hp. pose proof (count_zero hideable s Hnone p c Hp) as Hh.
    destruct (hidden c) eqn:Hc.
    - destruct (Hok p c Hp Hc) as [Hl H0]. unfold hideableMeta.
      rewrite Hl. apply Z.eqb_neq in H0. by rewrite H0.
    - unfold hideable in Hh. rewrite Hc in Hh. simpl in Hh. unfold hideableMeta.
      symmetry. exact Hh. }
  induction s as [|c s IH]; [done|].
  rewrite fmap_cons. cbn [List.filter].
  rewrite <- (Hiff 0%nat c eq_refl).
  assert (Hrec : (fun c0 => index (meta c0)) <$> List.filter hidden s
                 = index <$> List.filter hideableMeta (meta <$> s)).
  { apply IH.
    - intros p d Hp. apply (Hok (S p) d Hp).
    - unfold hideableCount in *. simpl in Hnone. destruct (hideable c); [done|exact Hnone].
    - intros p d Hp. apply (Hiff (S p) d Hp). }
  destruct (hidden c); [|exact Hrec]. rewrite !fmap_cons. by rewrite Hrec.
Qed.

Lemma overflow_hides_all_hideable_witness :
  computeHiddenColumns scenarioColumns 240
  = list_to_set (index <$> List.filter hideableMeta scenarioColumns).
Proof.
  apply overflow_hides_all_hideable.
  - apply (bool_decide_unpack _). vm_compute. exact I.
  - simpl. lia.
  - vm_compute. reflexivity.
Defined.


(** *** The order in which columns are hidden *)














End SolverMore.

(** ** More about the controller: the registry and the layout *)

Module RegistryFacts.
Import Dom Controller ControllerNotions.

Lemma foldl_alter_lookup {A B} (f : A -> A) (key : B -> nat) (l : list B) (arena : list A) i :
  (forall x, f (f x) = f x) ->
  foldl (fun a b => alter f (key b) a) arena l !! i =
  (if bool_decide (i ∈ key <$> l) then f <$> arena !! i else arena !! i).
Proof.
  intros Hf. revert arena. induction l as [|b l IH]; intros arena.
  - done.
  - rewrite fmap_cons. cbn [foldl]. rewrite IH.
    destruct (decide (key b = i)) as [<-|Hne].
    + rewrite list_lookup_alter_eq.
      rewrite (bool_decide_eq_true_2 (key b ∈ key b :: (key <$> l))) by left.
      destruct (bool_decide _); destruct (arena !! key b); simpl; by rewrite ?Hf.
    + rewrite list_lookup_alter_ne by done.
      apply (f_equal (fun b : bool => if b then f <$> arena !! i else arena !! i)).
      apply bool_decide_ext. rewrite elem_of_cons. intuition congruence.
Qed.

Lemma buildColumns_lookup st k col :
  columnsMeta (_buildColumns st) !! k = Some col ->
  exists id, headerCells (table st) !! k = Some id /\
    col = buildColumn (setTable (setThs (fun arena =>
            foldl (fun a id => alter (setThHide false) id a) arena
                  (headerCells (table st)))) st) k id.
Proof.
  unfold _buildColumns. simpl. rewrite list_lookup_imap.
  destruct (headerCells (table st) !! k) as [id|]; intros; simplify_eq/=. eauto.
Qed.

(** X6. The column registry: [_buildColumns] makes one entry per header
    cell, in order and numbered by position; an entry is locked exactly when
    it is the first one or has priority 1, which is also how [_refit] locks
    it; the priority is the attribute when there is one and the position
    plus one otherwise (1 for the control column); the first entry has the
    control width, and every minimum width is positive when the two width
    options are. *)
Theorem buildColumns_registry st :
  length (columnsMeta (_buildColumns st)) = length (headerCells (table st)) /\
  headerCells (table (_buildColumns st)) = headerCells (table st) /\
  forall k col, columnsMeta (_buildColumns st) !! k = Some col ->
    index col = Z.of_nat k /\
    headerCells (table st) !! k = Some (th col) /\
    (lock col = true <-> k = 0 \/ priority col = 1%Z) /\
    Solver.lock (refitMeta col) = lock col /\
    (forall h, t_ths (table st) !! th col = Some h ->
       priority col = default (if bool_decide (k = 0%nat) then 1 else Z.of_nat k + 1)%Z
                              (th_priority h)) /\
    (k = 0 -> min col = controlWidth (options st)) /\
    ((0 < controlWidth (options st))%Z -> (0 < minWidthDefault (options st))%Z ->
     (0 < min col)%Z).
Proof.
  split; [unfold _buildColumns; simpl; apply length_imap|]. split; [done|].
  intros k col Hcol. apply buildColumns_lookup in Hcol as (id & Hid & ->).
  unfold buildColumn. cbn [index th lock priority min table options setTable setThs t_ths].
  rewrite (foldl_alter_lookup (setThHide false) (fun id : nat => id)) by done.
  rewrite list_fmap_id.
  set (h := default newControlTh
              (if bool_decide (id ∈ headerCells (table st))
               then setThHide false <$> t_ths (table st) !! id
               else t_ths (table st) !! id)).
  split; [done|]. split; [done|]. split; [|split; [|split; [|split]]].
  - destruct (decide (k = 0)) as [->|Hk].
    + rewrite bool_decide_eq_true_2 by done. simpl. tauto.
    + rewrite (bool_decide_eq_false_2 (k = 0)) by done. simpl.
      rewrite Z.eqb_eq. split; [by right|]. intros [?|?]; done.
  - simpl. destruct (decide (k = 0)) as [->|Hk].
    + by rewrite bool_decide_eq_true_2.
    + rewrite (bool_decide_eq_false_2 (k = 0)) by done. simpl.
      assert ((Z.of_nat k =? 0)%Z = false) as -> by (apply Z.eqb_neq; lia). done.
  - intros h0 Hh0. unfold h. rewrite Hh0.
    rewrite bool_decide_eq_true_2 by (apply list_elem_of_lookup; eauto).
    simpl. by destruct (th_priority h0).
  - intros ->. by rewrite bool_decide_eq_true_2.
  - intros Hc Hd. destruct (bool_decide (k = 0)); [done|].
    unfold measure. cbv zeta.
    destruct (default 0%Z (th_min h) >? 0)%Z eqn:H1; [lia|].
    destruct (th_width h >? 0)%Z eqn:H2; lia.
Qed.

Lemma buildColumns_registry_witness :
  exists col, columnsMeta (_buildColumns (Orders.attached defaults Orders.roomy)) !! 3 = Some col /\
    index col = 3%Z /\ priority col = 4%Z /\ (0 < min col)%Z.
Proof.
  set (st := Orders.attached defaults Orders.roomy).
  destruct (columnsMeta (_buildColumns st) !! 3) as [col|] eqn:Hcol; [|by vm_compute in Hcol].
  exists col. split; [done|].
  destruct (buildColumns_registry st) as (_ & _ & Hk).
  destruct (Hk 3 col Hcol) as (Hi & Hth & _ & _ & Hp & _ & Hpos).
  assert (Hid : th col = 2).
  { assert (Hh : headerCells (table st) !! 3 = Some 2) by by vm_compute.
    rewrite Hh in Hth. by injection Hth. }
  split; [done|]. split; [|apply Hpos; by vm_compute].
  rewrite (Hp (default newControlTh (t_ths (table st) !! 2))); [by vm_compute|].
  rewrite Hid. by vm_compute.
Defined.


(** *** [_ensureControlColumn] *)

Lemma alter_fixed {A} (f : A -> A) (l : list A) i x :
  l !! i = Some x -> f x = x -> alter f i l = l.
Proof.
  intros Hi Hx. apply list_eq. intros j. destruct (decide (i = j)) as [<-|Hne].
  - by rewrite list_lookup_alter_eq, Hi; simpl; rewrite Hx.
  - by rewrite list_lookup_alter_ne.
Qed.

Lemma setThs_fixed f st :
  f (t_ths (table st)) = t_ths (table st) -> setTable (setThs f) st = st.
Proof.
  intros H. destruct st as [t o seq span dead ins uid cm wr li ob em].
  destruct t as [tid root sw sl ths thead bodies L]. simpl in H.
  unfold setTable, setThs. simpl. by rewrite H.
Qed.

(** Once the first header cell is a control cell, [_ensureControlColumn]
    only sets its attributes, and has nothing left to do afterwards. *)
Lemma ensure_of_control st id h :
  head (headerCells (table st)) = Some id -> t_ths (table st) !! id = Some h ->
  th_control h = true ->
  let st1 := _ensureControlColumn st in
  st1 = setTable (setThs (alter setThAria id)) st /\
  firstIsControl (table st1) = true /\ _ensureControlColumn st1 = st1.
Proof.
  intros Hhead Hh Hc.
  assert (Hfirst : firstIsControl (table st) = true).
  { unfold firstIsControl. by rewrite Hhead, Hh. }
  assert (Hens : _ensureControlColumn st = setTable (setThs (alter setThAria id)) st).
  { unfold _ensureControlColumn. by rewrite Hfirst, Hhead. }
  cbv zeta. rewrite Hens. split; [done|].
  set (st1 := setTable (setThs (alter setThAria id)) st).
  assert (Hhead1 : head (headerCells (table st1)) = Some id) by exact Hhead.
  assert (Hh1 : t_ths (table st1) !! id = Some (setThAria h)).
  { unfold st1. cbn [table setTable setThs t_ths]. by rewrite list_lookup_alter_eq, Hh. }
  assert (Hfirst1 : firstIsControl (table st1) = true).
  { unfold firstIsControl. by rewrite Hhead1, Hh1. }
  split; [done|].
  unfold _ensureControlColumn. rewrite Hfirst1, Hhead1.
  apply setThs_fixed. by apply (alter_fixed _ _ _ _ Hh1).
Qed.

(** X7. [_ensureControlColumn] on a table with a header row leaves a control
    cell at the head of the header, and running it again changes nothing: a
    second control column is never inserted.  When the header did not start
    with a control cell, a new one is put before the cells of the header
    row, and the flag that [destroy] reads is set. *)
Theorem ensureControlColumn_idempotent st row rows :
  t_thead (table st) = Some (row :: rows) ->
  firstIsControl (table (_ensureControlColumn st)) = true /\
  _ensureControlColumn (_ensureControlColumn st) = _ensureControlColumn st /\
  (firstIsControl (table st) = false ->
     headerCells (table (_ensureControlColumn st)) = length (t_ths (table st)) :: row /\
     length (t_bodies (table (_ensureControlColumn st))) = length (t_bodies (table st)) /\
     _insertedControl (_ensureControlColumn st) = true).
Proof.
  intros Hthead.
  destruct (firstIsControl (table st)) eqn:Hfirst.
  - unfold firstIsControl in Hfirst.
    destruct (head (headerCells (table st))) as [id|] eqn:Hhead; [|done].
    destruct (t_ths (table st) !! id) as [h|] eqn:Hh; [|done].
    destruct (ensure_of_control st id h Hhead Hh Hfirst) as (_ & H1 & H2).
    by repeat split.
  - set (id := length (t_ths (table st))).
    set (st1 := setTable (mapRows (setCells (cons newControlTd)))
                 (setInsertedControl true
                   (setTable (setHeaderCells (cons id))
                     (setTable (setThs (fun ths => ths ++ [newControlTh])) st)))).
    assert (Hens : _ensureControlColumn st = st1).
    { unfold _ensureControlColumn. by rewrite Hfirst. }
    rewrite Hens.
    assert (Hcells : headerCells (table st1) = id :: row).
    { unfold headerCells, st1. cbn [table setTable mapRows setBodies setInsertedControl
        setHeaderCells setThs t_thead]. by rewrite Hthead. }
    assert (Hnew : t_ths (table st1) !! id = Some newControlTh).
    { unfold st1. cbn [table setTable mapRows setBodies setInsertedControl
        setHeaderCells setThs t_ths]. rewrite lookup_app_r by (unfold id; lia).
      unfold id. by rewrite Nat.sub_diag. }
    assert (H1 : firstIsControl (table st1) = true).
    { unfold firstIsControl. rewrite Hcells. cbn [head]. by rewrite Hnew. }
    assert (H2 : _ensureControlColumn st1 = st1).
    { unfold _ensureControlColumn. rewrite H1, Hcells. cbn [head].
      apply setThs_fixed. by apply (alter_fixed _ _ _ _ Hnew). }
    split; [done|]. split; [done|]. intros _. split; [done|]. split; [|done].
    unfold st1. cbn [table setTable mapRows setBodies t_bodies]. by rewrite length_fmap.
Qed.

Lemma ensureControlColumn_idempotent_witness :
  let st := newController (Orders.orders Orders.roomy) defaults 1 in
  firstIsControl (table (_ensureControlColumn st)) = true /\
  _ensureControlColumn (_ensureControlColumn st) = _ensureControlColumn st.
Proof.
  intros st.
  destruct (ensureControlColumn_idempotent st [0; 1; 2] [] eq_refl) as (H1 & H2 & _).
  by split.
Defined.

(** *** Spanning cells *)

Lemma refit_unsupported initial st :
  _unsupportedSpan st = true -> _refit initial st = (Returns tt, st).
Proof. intros H. unfold _refit, bind, get. by rewrite H. Qed.

Lemma cellHides_syncDetailsColspan st :
  cellHides (table (_syncDetailsColspan st)) = cellHides (table st).
Proof.
  unfold cellHides, _syncDetailsColspan. simpl.
  rewrite <- list_fmap_compose. apply list_fmap_ext. intros _ rows _. simpl.
  rewrite <- list_fmap_compose. apply list_fmap_ext. intros _ r _. simpl.
  destruct (tr_details r); [|done]. simpl.
  rewrite (list_fmap_alter cell_hide _ id); [by rewrite list_alter_id|].
  by apply Forall_forall.
Qed.

(** X8. A spanning cell in the first header row or in a body row switches
    fitting off: [_checkSpans] sets the flag without touching the table;
    from then on [_refit] returns at once, unchanged and without a [refit]
    event, and [refresh] returns with the flag still set, no event, and the
    hidden markers of header and body cells as they were. *)
Theorem spanning_cell_disables_fit st :
  hasSpan (table st) ->
  let st' := _checkSpans st in
  _unsupportedSpan st' = true /\ table st' = table st /\
  (forall initial, _refit initial st' = (Returns tt, st')) /\
  exists st'', refresh st' = (Returns tt, st'') /\
    _unsupportedSpan st'' = true /\ emitted st'' = emitted st /\
    t_ths (table st'') = t_ths (table st) /\ t_thead (table st'') = t_thead (table st) /\
    cellHides (table st'') = cellHides (table st).
Proof.
  intros Hspan st'.
  assert (Hflag : _unsupportedSpan st' = true /\ table st' = table st /\
                  emitted st' = emitted st).
  { unfold st', _checkSpans.
    assert (existsb (spansTh (table st)) (headerCells (table st))
            || existsb (fun rows => existsb (fun r => existsb spansCell (tr_cells r)) rows)
                 (t_bodies (table st)) = true) as ->; [|done].
    apply orb_true_iff. destruct Hspan as [(id & h & Hid & Hh & Hs)|(rows & row & c & Hr & Hrow & Hc & Hs)].
    - left. apply existsb_exists. exists id. split; [by apply list_elem_of_In|].
      unfold spansTh. rewrite Hh. apply orb_true_iff.
      destruct Hs as [Hs|Hs]; [left|right]; apply negb_true_iff; by apply Z.eqb_neq.
    - right. apply existsb_exists. exists rows. split; [by apply list_elem_of_In|].
      apply existsb_exists. exists row. split; [by apply list_elem_of_In|].
      apply existsb_exists. exists c. split; [by apply list_elem_of_In|].
      unfold spansCell. apply orb_true_iff.
      destruct Hs as [Hs|Hs]; [left|right]; apply negb_true_iff; by apply Z.eqb_neq. }
  destruct Hflag as (Hf & Ht & He). split; [done|]. split; [done|].
  split; [intros initial; by apply refit_unsupported|].
  unfold refresh, bind, modify.
  set (st1 := _syncDetailsColspan (setColumnsMeta _ st')).
  assert (_unsupportedSpan st1 = true) as Hf1 by done.
  exists st1. split; [by apply refit_unsupported|]. split; [done|].
  split; [done|]. split; [by rewrite <- Ht|]. split; [by rewrite <- Ht|].
  unfold st1. rewrite cellHides_syncDetailsColspan. simpl. by rewrite Ht.
Qed.

Lemma spanning_cell_disables_fit_witness :
  let st := newController
    (Table_mk "t" false "" "" [Orders.th_ None 100 "A"] (Some [[0]])
       [[Orders.tr_ [Cell_mk false false 2 1 "x" "x" None]]] Orders.roomy) defaults 1 in
  _unsupportedSpan (_checkSpans st) = true /\
  _refit false (_checkSpans st) = (Returns tt, _checkSpans st).
Proof.
  intros st. destruct (spanning_cell_disables_fit st) as (H1 & _ & H2 & _).
  - right. exists [Orders.tr_ [Cell_mk false false 2 1 "x" "x" None]],
      (Orders.tr_ [Cell_mk false false 2 1 "x" "x" None]),
      (Cell_mk false false 2 1 "x" "x" None).
    split; [by left|]. split; [by left|]. split; [by left|]. by left.
  - split; [exact H1|apply H2].
Defined.

(** *** [_availableWidth] *)

(** X9. [_availableWidth] never answers zero or less when the viewport width
    is not negative; while the wrapper is not known yet or the table is not
    visible and [deferWhenHidden] is set it answers the viewport width (1024
    when that is 0), and it answers the width of the wrapper when the
    wrapper is known, visible and has one. *)
Theorem availableWidth_positive st :
  let L := t_layout (table st) in
  ((0 <= window_innerWidth L)%Z -> (0 < _availableWidth st)%Z) /\
  ((wrapper st && wrapper_visible L) && table_visible L = false ->
   deferWhenHidden (options st) = true ->
   _availableWidth st = if (window_innerWidth L =? 0)%Z then 1024%Z else window_innerWidth L) /\
  (wrapper st = true -> wrapper_visible L = true -> table_visible L = true ->
   (0 < wrapper_clientWidth L)%Z -> _availableWidth st = wrapper_clientWidth L).
Proof.
  intros L. unfold _availableWidth. fold L. cbv zeta. unfold orNumber. split; [|split].
  - intros Hw.
    destruct (negb _ && deferWhenHidden (options st)).
    + destruct (window_innerWidth L =? 0)%Z eqn:H0; rewrite ?Z.eqb_neq in *; lia.
    + match goal with |- context [(?w >? 0)%Z] => destruct (w >? 0)%Z eqn:Hgt end; [lia|].
      destruct (window_innerWidth L =? 0)%Z eqn:H0; rewrite ?Z.eqb_neq in *; lia.
  - intros -> ->. done.
  - intros -> -> -> Hpos. simpl.
    assert ((wrapper_clientWidth L =? 0)%Z = false) as -> by (apply Z.eqb_neq; lia).
    simpl. assert ((wrapper_clientWidth L >? 0)%Z = true) as -> by lia. done.
Qed.

Lemma availableWidth_positive_witness :
  (0 < _availableWidth (newController (Orders.orders Orders.roomy) defaults 1))%Z /\
  _availableWidth (newController (Orders.orders Orders.roomy) defaults 1) = 1200%Z /\
  _availableWidth (Orders.attached defaults Orders.tight) = 400%Z.
Proof.
  split; [|split].
  - apply (proj1 (availableWidth_positive _)). simpl. lia.
  - rewrite (proj1 (proj2 (availableWidth_positive
               (newController (Orders.orders Orders.roomy) defaults 1))));
      reflexivity.
  - apply (proj2 (proj2 (availableWidth_positive (Orders.attached defaults Orders.tight))));
      reflexivity.
Defined.

End RegistryFacts.

(** ** More about the controller: binding the rows *)

Module BinderFacts.
Import Dom Controller ControllerNotions.

Lemma bindRow_details st seq row : tr_details (bindRow st seq row).1 = tr_details row.
Proof.
  unfold bindRow. repeat (case_match; simplify_eq/=); done.
Qed.

Lemma bindRow_bound st seq row : isBound (bindRow st seq row).1 = true.
Proof.
  unfold bindRow. cbv zeta.
  match goal with |- context [tr_rowKey ?r] => set (row1 := r) end.
  assert (H1 : exists c1 rest, tr_cells row1 = c1 :: rest /\ cell_control c1 = true).
  { unfold row1. destruct (tr_cells row) as [|c cells] eqn:Hcells; cbn [head].
    - exists newControlTd, []. unfold setCells. cbn [tr_cells]. by rewrite Hcells.
    - destruct (cell_control c) eqn:Hc; cbn [negb].
      + exists c, cells. by rewrite Hcells.
      + exists newControlTd, (c :: cells). unfold setCells. cbn [tr_cells]. by rewrite Hcells. }
  destruct H1 as (c1 & rest & Hcells1 & Hc1).
  match goal with |- context [let '(r, s) := ?X in _] =>
    destruct X as [row2 seq'] eqn:E2 end.
  assert (H2 : tr_cells row2 = c1 :: rest /\ is_Some (tr_rowKey row2)).
  { destruct (tr_rowKey row1) as [k|] eqn:Hk; [by simplify_eq|].
    destruct (tr_key_attr row1) as [k|]; [destruct (String.eqb k "")|];
      simplify_eq; by split. }
  destruct H2 as [Hcells2 [k Hk2]].
  unfold isBound. cbn [fst]. rewrite Hcells2. cbn [head].
  destruct (cell_toggle c1) eqn:Ht.
  - rewrite Hcells2, Hk2. cbn [head]. rewrite Hc1, Ht. done.
  - unfold setCells. cbn [tr_cells tr_rowKey]. rewrite Hcells2, Hk2. cbn [alter list_alter head].
    unfold setCellToggle. cbn [cell_control cell_toggle]. rewrite Hc1.
    apply bool_decide_eq_true. by eexists.
Qed.

Lemma bindRow_of_bound st seq row : isBound row = true -> bindRow st seq row = (row, seq).
Proof.
  unfold bindRow, isBound. intros Hb.
  destruct (head (tr_cells row)) as [c|] eqn:Hh; [|done].
  destruct (tr_rowKey row) as [k|] eqn:Hk; [|done].
  apply andb_true_iff in Hb as [Hc Ht]. rewrite Hc. cbn [negb]. cbv zeta.
  rewrite Hk, Hh. apply bool_decide_eq_true in Ht as [b Ht]. by rewrite Ht.
Qed.

Lemma syncSpan_new st row : syncSpan st (newDetailsRow st row) = newDetailsRow st row.
Proof. done. Qed.

Lemma syncSpan_syncSpan st d : syncSpan st (syncSpan st d) = syncSpan st d.
Proof.
  unfold syncSpan, setCells. simpl. f_equal. rewrite list_alter_alter_eq.
  by apply list_alter_ext.
Qed.

Lemma syncSpan_ext st st' d :
  headerLength st' = headerLength st -> syncSpan st' d = syncSpan st d.
Proof. unfold syncSpan. by intros ->. Qed.

(** Binding the rows of a section that has been bound changes nothing. *)
Lemma mountRows_idempotent st st' n : forall rows seq seq2,
  headerLength st' = headerLength st ->
  length rows <= n ->
  mountRows st' seq2 (mountRows st seq rows).1 = ((mountRows st seq rows).1, seq2).
Proof.
  induction n as [|n IH]; intros rows seq seq2 Hlen' Hlen.
  { destruct rows; [done|simpl in Hlen; lia]. }
  destruct rows as [|row rest]; [done|]. simpl in Hlen.
  cbn [mountRows]. destruct (tr_details row) eqn:Hd.
  - pose proof (IH rest seq seq2 Hlen' ltac:(lia)) as Hrest.
    destruct (mountRows st seq rest) as [out s'] eqn:E. simpl in *.
    by rewrite Hd, Hrest.
  - pose proof (bindRow_bound st seq row) as Hb.
    pose proof (bindRow_details st seq row) as Hdd.
    destruct (bindRow st seq row) as [row' seq1] eqn:Eb. simpl in Hb, Hdd.
    rewrite Hd in Hdd.
    destruct rest as [|next rest'].
    + simpl. by rewrite Hdd, (bindRow_of_bound _ _ _ Hb), (syncSpan_ext st st').
    + destruct (tr_details next) eqn:Hn.
      * pose proof (IH rest' seq1 seq2 Hlen' ltac:(simpl in Hlen; lia)) as Hrest.
        destruct (mountRows st seq1 rest') as [out s'] eqn:E. simpl in *.
        rewrite Hdd, (bindRow_of_bound _ _ _ Hb), Hn, Hrest.
        by rewrite (syncSpan_ext st st'), syncSpan_syncSpan.
      * pose proof (IH (next :: rest') seq1 seq2 Hlen' ltac:(simpl in *; lia)) as Hrest.
        destruct (mountRows st seq1 (next :: rest')) as [out s'] eqn:E.
        cbn [fst] in *. cbn [mountRows].
        rewrite Hdd, (bindRow_of_bound _ _ _ Hb). cbn [newDetailsRow tr_details].
        rewrite Hrest. by rewrite (syncSpan_ext st st').
Qed.

(** What the rows of a section look like once they are bound: every data
    row is bound and is followed by a details row. *)
Lemma mountRows_post st n : forall rows seq r row,
  length rows <= n ->
  (mountRows st seq rows).1 !! r = Some row -> tr_details row = false ->
  isBound row = true /\
  exists d, (mountRows st seq rows).1 !! S r = Some d /\ tr_details d = true.
Proof.
  induction n as [|n IH]; intros rows seq r row Hlen.
  { destruct rows; [done|simpl in Hlen; lia]. }
  destruct rows as [|first rest]; [done|]. simpl in Hlen.
  cbn [mountRows]. destruct (tr_details first) eqn:Hd.
  - pose proof (IH rest seq) as Hrest.
    destruct (mountRows st seq rest) as [out s'] eqn:E. simpl.
    destruct r as [|r]; simpl; [intros; simplify_eq; congruence|].
    intros Hr Hrow. apply (Hrest r row); [lia|done|done].
  - pose proof (bindRow_bound st seq first) as Hb.
    pose proof (bindRow_details st seq first) as Hdd.
    destruct (bindRow st seq first) as [row' seq1] eqn:Eb. simpl in Hb, Hdd.
    destruct rest as [|next rest'].
    + destruct r as [|[|r]]; simpl; intros Hr Hrow; simplify_eq/=.
      split; [done|]. eauto.
    + destruct (tr_details next) eqn:Hn.
      * pose proof (IH rest' seq1) as Hrest.
        destruct (mountRows st seq1 rest') as [out s'] eqn:E. simpl.
        destruct r as [|[|r]]; simpl; intros Hr Hrow; simplify_eq/=.
        -- split; [done|]. eauto.
        -- by rewrite Hn in Hrow.
        -- apply (Hrest r row); [simpl in Hlen; lia|done|done].
      * pose proof (IH (next :: rest') seq1) as Hrest.
        destruct (mountRows st seq1 (next :: rest')) as [out s'] eqn:E. cbn [fst] in *.
        destruct r as [|[|r]]; simpl; intros Hr Hrow; simplify_eq/=.
        -- split; [done|]. eauto.
        -- apply (Hrest r row); [simpl in *; lia|done|done].
Qed.

(** X10. The Row Binder is idempotent: binding the rows of a body section
    that it has bound already leaves the controller and its table as they
    are; no second control cell, toggle or details row is inserted and the
    row-key counter does not move. *)
Theorem mountRowsInBody_idempotent b st :
  _mountRowsInBody b (_mountRowsInBody b st) = _mountRowsInBody b st.
Proof.
  destruct (t_bodies (table st) !! b) as [rows|] eqn:Hb.
  2:{ assert (_mountRowsInBody b st = st) as Hst
        by (unfold _mountRowsInBody; by rewrite Hb).
      by rewrite !Hst. }
  pose proof (mountRows_idempotent st
    (setRowKeySeq (mountRows st (_rowKeySeq st) rows).2
       (setTable (setBodies (fun bodies => <[b := (mountRows st (_rowKeySeq st) rows).1]> bodies)) st))
    (length rows) rows (_rowKeySeq st) (mountRows st (_rowKeySeq st) rows).2
    eq_refl (le_n _)) as Hidem.
  assert (Hst : _mountRowsInBody b st
    = setRowKeySeq (mountRows st (_rowKeySeq st) rows).2
        (setTable (setBodies (fun bodies => <[b := (mountRows st (_rowKeySeq st) rows).1]> bodies)) st)).
  { unfold _mountRowsInBody. rewrite Hb. by destruct (mountRows st (_rowKeySeq st) rows). }
  rewrite Hst.
  destruct (mountRows st (_rowKeySeq st) rows) as [rows' seq'] eqn:E. cbn [fst snd] in *.
  unfold _mountRowsInBody at 1.
  cbn [table setRowKeySeq setTable setBodies t_bodies _rowKeySeq].
  rewrite list_lookup_insert_eq by (by apply lookup_lt_Some in Hb).
  rewrite Hidem.
  unfold setRowKeySeq, setTable, setBodies. simpl. by rewrite list_insert_insert_eq.
Qed.

(** X11. What the Row Binder leaves behind: in a body section it has bound,
    every row that is not a details row starts with a control cell that
    holds a toggle button, has a row key, and is followed at once by a
    details row. *)
Theorem mountRowsInBody_binds b st rows r row :
  t_bodies (table st) !! b ≠ None ->
  t_bodies (table (_mountRowsInBody b st)) !! b = Some rows ->
  rows !! r = Some row -> tr_details row = false ->
  isBound row = true /\
  exists d, rows !! S r = Some d /\ tr_details d = true.
Proof.
  intros Hb Hrows Hr Hd.
  destruct (t_bodies (table st) !! b) as [rows0|] eqn:Hb0; [|done].
  unfold _mountRowsInBody in Hrows. rewrite Hb0 in Hrows.
  pose proof (mountRows_post st (length rows0) rows0 (_rowKeySeq st) r row (le_n _)) as Hpost.
  destruct (mountRows st (_rowKeySeq st) rows0) as [rows' seq'] eqn:E.
  cbn [table setRowKeySeq setTable setBodies t_bodies] in Hrows.
  rewrite list_lookup_insert_eq in Hrows by (by apply lookup_lt_Some in Hb0).
  simplify_eq. by apply Hpost.
Qed.

Lemma mountRowsInBody_binds_witness :
  exists rows row,
    t_bodies (table (_mountRowsInBody 0
      (newController (Orders.orders Orders.roomy) defaults 1))) !! 0 = Some rows /\
    rows !! 2 = Some row /\ isBound row = true /\
    exists d, rows !! 3 = Some d /\ tr_details d = true.
Proof.
  destruct (t_bodies (table (_mountRowsInBody 0
      (newController (Orders.orders Orders.roomy) defaults 1))) !! 0)
    as [rows|] eqn:Hrows; [|by vm_compute in Hrows].
  destruct (rows !! 2) as [row|] eqn:Hrow.
  2:{ vm_compute in Hrows. injection Hrows as <-. by vm_compute in Hrow. }
  exists rows, row. split; [done|]. split; [done|].
  apply (mountRowsInBody_binds 0 (newController (Orders.orders Orders.roomy) defaults 1)
           rows 2 row); try done.
  vm_compute in Hrows. injection Hrows as <-. vm_compute in Hrow. by injection Hrow as <-.
Defined.

End BinderFacts.

(** ** More about the controller: rows by index, and detaching *)

Module TeardownFacts.
Import Dom Controller Facade ControllerNotions ControllerFacts.

(** [allRows] lists the rows of the table that are not details rows. *)
Lemma elem_of_allRows st ref :
  ref ∈ allRows st <->
  exists row, rowAt (table st) ref = Some row /\ tr_details row = false.
Proof.
  unfold allRows, rowAt. rewrite list_elem_of_bind. split.
  - intros (b & Hin & Hb). unfold dataRowsIn in Hin.
    destruct (t_bodies (table st) !! b) as [rows|] eqn:Hrows;
      [|by apply not_elem_of_nil in Hin].
    apply list_elem_of_fmap in Hin as (r & -> & Hr).
    apply elem_of_dataRowsOf in Hr as (row & Hr & Hd).
    exists row. simpl. by rewrite Hrows.
  - intros (row & Hrow & Hd). destruct ref as [b r]. simpl in Hrow.
    destruct (t_bodies (table st) !! b) as [rows|] eqn:Hrows; [|done].
    simpl in Hrow. exists b. split.
    + unfold dataRowsIn. rewrite Hrows. apply list_elem_of_fmap.
      exists r. split; [done|]. apply elem_of_dataRowsOf. eauto.
    + unfold bodyIndices. apply elem_of_seq. apply lookup_lt_Some in Hrows. lia.
Qed.

(** X12. An index never names a details row: when the argument of
    [expandRow] or [collapseRow] is not a row element and resolves to a
    row, that row is a row of the table and is not a details row. *)
Theorem index_names_data_row (stringToNumber : string -> Number) st v st' ref :
  (forall r, v ≠ VRow r) ->
  _resolveDataRow stringToNumber v st = (Returns (Some ref), st') ->
  exists row, rowAt (table st') ref = Some row /\ tr_details row = false.
Proof.
  intros Hrow Hres. apply elem_of_allRows.
  assert (Hres' : bind (toNumber stringToNumber v) (fun idx =>
             match idx with
             | NInt idx =>
                 let! st := get in
                 ret (if (0 <=? idx)%Z then allRows st !! Z.to_nat idx else None)
             | _ => ret None
             end) st = (Returns (Some ref), st')).
  { rewrite <- Hres. destruct v; try done. by destruct (Hrow ref0). }
  unfold bind in Hres'.
  destruct (toNumber stringToNumber v st) as [[n|e] st1]; [|done].
  destruct n as [z| | |]; try done.
  unfold get, ret in Hres'. destruct (0 <=? z)%Z; simplify_eq.
  apply list_elem_of_lookup. eauto.
Qed.

Lemma index_names_data_row_witness :
  exists row,
    rowAt (table (Orders.attached defaults Orders.roomy)) (0, 2) = Some row /\
    tr_details row = false.
Proof.
  apply (index_names_data_row (fun _ => NNaN) (Orders.attached defaults Orders.roomy)
           (VNumber (NInt 1)) (Orders.attached defaults Orders.roomy) (0, 2)).
  - intros r. discriminate.
  - by vm_compute.
Defined.

(** *** Collapsing a row *)

Lemma queryToggleFrom_alter i cells ci btn b' :
  queryToggleFrom i cells = Some (ci, btn) ->
  queryToggleFrom i (alter (setCellToggle (Some b')) (ci - i) cells) = Some (ci, b') /\
  i <= ci.
Proof.
  revert i. induction cells as [|c cells IH]; intros i Hq; [done|].
  cbn [queryToggleFrom] in Hq. destruct (cell_toggle c) as [b|] eqn:Hc.
  - simplify_eq. rewrite Nat.sub_diag. by split.
  - destruct (IH (S i) Hq) as [Hrec Hle]. split; [|lia].
    replace (ci - i) with (S (ci - S i)) by lia.
    change (alter ?f (S ?n) (c :: cells)) with (c :: alter f n cells).
    cbn [queryToggleFrom]. by rewrite Hc.
Qed.

Lemma toggle_collapses_to st ref row ci btn details :
  rowAt (table st) ref = Some row -> tr_details row = false ->
  queryToggle row = Some (ci, btn) -> aria_expanded btn = true ->
  rowAt (table st) (ref.1, S ref.2) = Some details -> tr_details details = true ->
  exists row',
    toggle ref st
    = (Returns tt,
       pushEvent (EvToggle ref false) (pushEvent (EvCollapse ref)
         (setTable (alterRow (ref.1, S ref.2) (setTrHidden true))
            (setTable (setButton ref ci
               (setExpanded false (icons_expand (options st), strings_show (options st)) btn))
               st)))) /\
    rowAt (table (setTable (alterRow (ref.1, S ref.2) (setTrHidden true))
            (setTable (setButton ref ci
               (setExpanded false (icons_expand (options st), strings_show (options st)) btn))
               st))) ref = Some row' /\
    queryToggle row'
    = Some (ci, setExpanded false (icons_expand (options st), strings_show (options st)) btn) /\
    rowAt (table (setTable (alterRow (ref.1, S ref.2) (setTrHidden true))
            (setTable (setButton ref ci
               (setExpanded false (icons_expand (options st), strings_show (options st)) btn))
               st))) (ref.1, S ref.2) = Some (setTrHidden true details).
Proof.
  intros Hrow Hd Hq He Hdet Hdd.
  assert (Hne : ref ≠ (ref.1, S ref.2)).
  { destruct ref as [b r]. simpl. intros [= Hr]. lia. }
  eexists. split.
  { unfold toggle, bind, get. rewrite Hrow, Hd, Hq, Hdet, Hdd, He. cbn [negb].
    reflexivity. }
  cbn [table setTable]. split; [|split].
  - rewrite rowAt_alterRow, decide_False by done.
    unfold setButton. rewrite rowAt_alterRow, decide_True, Hrow by done. reflexivity.
  - unfold queryToggle in *. cbn [setCells tr_cells].
    destruct (queryToggleFrom_alter 0 _ _ _
                (setExpanded false (icons_expand (options st), strings_show (options st)) btn)
                Hq) as [Hq' _].
    by rewrite Nat.sub_0_r in Hq'.
  - rewrite rowAt_alterRow, decide_True by done.
    unfold setButton. by rewrite rowAt_alterRow, decide_False, Hdet by done.
Qed.

(** X13. Collapsing never runs the renderer: [toggle] on an expanded data
    row that is followed by its details row returns, whatever the custom
    renderer does; the toggle then says collapsed, the details row is
    hidden, and [collapse] and [toggle] are the two events emitted. *)
Theorem toggle_collapses st ref row ci btn details :
  rowAt (table st) ref = Some row -> tr_details row = false ->
  queryToggle row = Some (ci, btn) -> aria_expanded btn = true ->
  rowAt (table st) (ref.1, S ref.2) = Some details -> tr_details details = true ->
  exists st', toggle ref st = (Returns tt, st') /\
    emitted st' = emitted st ++ [EvCollapse ref; EvToggle ref false] /\
    (aria_expanded ∘ snd <$> (rowAt (table st') ref ≫= queryToggle)) = Some false /\
    (tr_hidden <$> rowAt (table st') (ref.1, S ref.2)) = Some true.
Proof.
  intros Hrow Hd Hq He Hdet Hdd.
  destruct (toggle_collapses_to st ref row ci btn details Hrow Hd Hq He Hdet Hdd)
    as (row' & Hrun & Hrow' & Hq' & Hdet').
  eexists. split; [exact Hrun|].
  split; [cbn [emitted pushEvent setTable]; by rewrite <- app_assoc|].
  cbn [table pushEvent]. rewrite Hrow', Hdet'. cbn [mbind option_bind]. by rewrite Hq'.
Qed.

Lemma toggle_collapses_witness :
  exists st', toggle (0, 0) (toggle (0, 0) (Orders.attached defaults Orders.tight)).2
                = (Returns tt, st') /\
    (tr_hidden <$> rowAt (table st') (0, 1)) = Some true.
Proof.
  destruct (rowAt (table (toggle (0, 0) (Orders.attached defaults Orders.tight)).2) (0, 0))
    as [row|] eqn:Hrow; [|by vm_compute in Hrow].
  destruct (queryToggle row) as [[ci btn]|] eqn:Hq.
  2:{ vm_compute in Hrow. injection Hrow as <-. by vm_compute in Hq. }
  destruct (rowAt (table (toggle (0, 0) (Orders.attached defaults Orders.tight)).2) (0, 1))
    as [details|] eqn:Hdet; [|by vm_compute in Hdet].
  destruct (toggle_collapses _ (0, 0) row ci btn details Hrow) as (st' & Hst & _ & _ & Hh).
  - vm_compute in Hrow. by injection Hrow as <-.
  - exact Hq.
  - vm_compute in Hrow. injection Hrow as <-. vm_compute in Hq. by injection Hq as <- <-.
  - exact Hdet.
  - vm_compute in Hdet. by injection Hdet as <-.
  - by exists st'.
Defined.

(** *** Expanding a row *)

#[local] Instance touchesOnly_refl dref : Reflexive (touchesOnly dref).
Proof. intros st. unfold touchesOnly. tauto. Qed.

#[local] Instance touchesOnly_trans dref : Transitive (touchesOnly dref).
Proof.
  intros s1 s2 s3 (H1 & H2 & H3 & H4 & H5) (G1 & G2 & G3 & G4 & G5).
  unfold touchesOnly. repeat split; try congruence.
  intros ref Hne. by rewrite G4, H4.
Qed.

Lemma touchesOnly_setWrap dref w st :
  touchesOnly dref st (setTable (alterRow dref (setWrap w)) st).
Proof.
  unfold touchesOnly. cbn [emitted options columnsMeta table setTable].
  repeat split; try done.
  - intros ref Hne. by rewrite rowAt_alterRow, decide_False.
  - rewrite rowAt_alterRow, decide_True by done. by destruct (rowAt (table st) dref).
Qed.

(** Rendering the panel of a row touches the wrapper of its details row, and
    nothing else. *)
Lemma render_touchesOnly ref dref H :
  steps (touchesOnly dref) (_renderDetailsForRow ref dref H).
Proof.
  unfold _renderDetailsForRow.
  step_bind; [apply steps_get, _|]. intros st.
  destruct (rowAt (table st) ref) as [row|]; [|step_ret].
  destruct (rowAt (table st) dref) as [details|]; [|step_ret].
  destruct (tr_wrap details); [|step_ret].
  step_bind; [apply steps_modify; intros; apply touchesOnly_setWrap|].
  intros _. step_bind.
  - destruct (detailsRender (options st)) as [render|]; [|step_ret].
    destruct (render _ _ _).
    + step_bind; [apply steps_modify; intros; apply touchesOnly_setWrap|].
      intros _. step_ret.
    + step_bind; [apply steps_modify; intros; apply touchesOnly_setWrap|].
      intros _. step_ret.
    + step_ret.
    + step_throw.
  - intros [|]; [step_ret|].
    apply steps_modify; intros; apply touchesOnly_setWrap.
Qed.

Lemma toggle_expands_to st ref row ci btn details :
  rendererReturns (options st) ->
  rowAt (table st) ref = Some row -> tr_details row = false ->
  queryToggle row = Some (ci, btn) -> aria_expanded btn = false ->
  rowAt (table st) (ref.1, S ref.2) = Some details -> tr_details details = true ->
  exists st' row' details',
    toggle ref st = (Returns tt, st') /\
    emitted st' = emitted st ++ [EvExpand ref; EvToggle ref true] /\
    options st' = options st /\
    rowAt (table st') ref = Some row' /\ tr_details row' = false /\
    queryToggle row'
      = Some (ci, setExpanded true (icons_collapse (options st), strings_hide (options st)) btn) /\
    rowAt (table st') (ref.1, S ref.2) = Some details' /\
    tr_details details' = true /\ tr_hidden details' = false.
Proof.
  intros Hrender Hrow Hd Hq He Hdet Hdd.
  assert (Hne : ref ≠ (ref.1, S ref.2)).
  { destruct ref as [b r]. simpl. intros [= Hr]. lia. }
  set (btn' := setExpanded true (icons_collapse (options st), strings_hide (options st)) btn).
  set (st1 := setTable (setButton ref ci btn') st).
  destruct (render_returnsIfRendererDoes ref (ref.1, S ref.2) (headerHiddenSet st) st1 Hrender)
    as ([] & st2 & Hrun).
  destruct (render_touchesOnly ref (ref.1, S ref.2) (headerHiddenSet st) st1 _ st2 Hrun)
    as (Hem & Hopt & _ & Hother & Hsame).
  assert (Hrow1 : rowAt (table st1) ref
                  = Some (setCells (alter (setCellToggle (Some btn')) ci) row)).
  { unfold st1, setButton. cbn [table setTable].
    by rewrite rowAt_alterRow, decide_True, Hrow by done. }
  assert (Hdet1 : rowAt (table st1) (ref.1, S ref.2) = Some details).
  { unfold st1, setButton. cbn [table setTable].
    by rewrite rowAt_alterRow, decide_False by done. }
  rewrite Hdet1 in Hsame.
  destruct (rowAt (table st2) (ref.1, S ref.2)) as [details2|] eqn:Hdet2; [|done].
  injection Hsame as Hdd2 Hh2.
  exists (pushEvent (EvToggle ref true) (pushEvent (EvExpand ref)
            (setTable (alterRow (ref.1, S ref.2) (setTrHidden false)) st2))),
         (setCells (alter (setCellToggle (Some btn')) ci) row),
         (setTrHidden false details2).
  split.
  { unfold toggle, bind, get. rewrite Hrow, Hd, Hq, Hdet, Hdd, He. cbn [negb].
    unfold modify at 1. fold btn' st1. rewrite Hrun. reflexivity. }
  cbn [emitted options pushEvent table setTable].
  split; [by rewrite Hem, <- app_assoc|]. split; [done|].
  split; [by rewrite rowAt_alterRow, decide_False, Hother, Hrow1 by done|].
  split; [done|]. split.
  { unfold queryToggle in *. cbn [setCells tr_cells].
    destruct (queryToggleFrom_alter 0 _ _ _ btn' Hq) as [Hq' _].
    by rewrite Nat.sub_0_r in Hq'. }
  split; [by rewrite rowAt_alterRow, decide_True, Hdet2 by done|].
  split; [by rewrite <- Hdd, <- Hdd2|done].
Qed.

(** X14. Expanding a collapsed data row whose details row follows it: with
    a renderer that does not raise, or none, [toggle] returns; the toggle
    then says expanded, the details row is shown, and [expand] and [toggle]
    are the two events emitted. *)
Theorem toggle_expands st ref row ci btn details :
  rendererReturns (options st) ->
  rowAt (table st) ref = Some row -> tr_details row = false ->
  queryToggle row = Some (ci, btn) -> aria_expanded btn = false ->
  rowAt (table st) (ref.1, S ref.2) = Some details -> tr_details details = true ->
  exists st', toggle ref st = (Returns tt, st') /\
    emitted st' = emitted st ++ [EvExpand ref; EvToggle ref true] /\
    (aria_expanded ∘ snd <$> (rowAt (table st') ref ≫= queryToggle)) = Some true /\
    (tr_hidden <$> rowAt (table st') (ref.1, S ref.2)) = Some false.
Proof.
  intros Hrender Hrow Hd Hq He Hdet Hdd.
  destruct (toggle_expands_to st ref row ci btn details Hrender Hrow Hd Hq He Hdet Hdd)
    as (st' & row' & details' & Hrun & Hem & _ & Hrow' & _ & Hq' & Hdet' & _ & Hh).
  exists st'. split; [done|]. split; [done|].
  rewrite Hrow', Hdet'. cbn [mbind option_bind]. rewrite Hq'. by rewrite <- Hh.
Qed.

Lemma toggle_expands_witness :
  exists st', toggle (0, 0) (Orders.attached defaults Orders.tight) = (Returns tt, st') /\
    (tr_hidden <$> rowAt (table st') (0, 1)) = Some false.
Proof.
  destruct (rowAt (table (Orders.attached defaults Orders.tight)) (0, 0))
    as [row|] eqn:Hrow; [|by vm_compute in Hrow].
  destruct (queryToggle row) as [[ci btn]|] eqn:Hq.
  2:{ vm_compute in Hrow. injection Hrow as <-. by vm_compute in Hq. }
  destruct (rowAt (table (Orders.attached defaults Orders.tight)) (0, 1))
    as [details|] eqn:Hdet; [|by vm_compute in Hdet].
  destruct (toggle_expands (Orders.attached defaults Orders.tight) (0, 0) row ci btn details) as (st' & Hst & _ & _ & Hh).
  - intros render Hr. by vm_compute in Hr.
  - exact Hrow.
  - vm_compute in Hrow. by injection Hrow as <-.
  - exact Hq.
  - vm_compute in Hrow. injection Hrow as <-. vm_compute in Hq. by injection Hq as <- <-.
  - exact Hdet.
  - vm_compute in Hdet. by injection Hdet as <-.
  - by exists st'.
Defined.

(** X15. Expanding and collapsing again is a round trip for what the user
    sees: from a collapsed data row, two calls of [toggle] return, emit
    [expand], [toggle], [collapse], [toggle] in this order, and leave the
    toggle collapsed and the details row hidden. *)
Theorem toggle_twice st ref row ci btn details :
  rendererReturns (options st) ->
  rowAt (table st) ref = Some row -> tr_details row = false ->
  queryToggle row = Some (ci, btn) -> aria_expanded btn = false ->
  rowAt (table st) (ref.1, S ref.2) = Some details -> tr_details details = true ->
  exists st1 st2,
    toggle ref st = (Returns tt, st1) /\ toggle ref st1 = (Returns tt, st2) /\
    emitted st2 = emitted st ++ [EvExpand ref; EvToggle ref true;
                                 EvCollapse ref; EvToggle ref false] /\
    (aria_expanded ∘ snd <$> (rowAt (table st2) ref ≫= queryToggle)) = Some false /\
    (tr_hidden <$> rowAt (table st2) (ref.1, S ref.2)) = Some true.
Proof.
  intros Hrender Hrow Hd Hq He Hdet Hdd.
  destruct (toggle_expands_to st ref row ci btn details Hrender Hrow Hd Hq He Hdet Hdd)
    as (st1 & row' & details' & Hrun & Hem & _ & Hrow' & Hd' & Hq' & Hdet' & Hdd' & _).
  destruct (toggle_collapses_to st1 ref row' ci _ details' Hrow' Hd' Hq' eq_refl Hdet' Hdd')
    as (row2 & Hrun2 & Hrow2 & Hq2 & Hdet2).
  exists st1. eexists. split; [done|]. split; [exact Hrun2|].
  split; [cbn [emitted pushEvent setTable]; by rewrite Hem, <- !app_assoc|].
  cbn [table pushEvent]. rewrite Hrow2, Hdet2. cbn [mbind option_bind]. by rewrite Hq2.
Qed.

Lemma toggle_twice_witness :
  exists st1 st2,
    toggle (0, 0) (Orders.attached defaults Orders.tight) = (Returns tt, st1) /\
    toggle (0, 0) st1 = (Returns tt, st2) /\
    (tr_hidden <$> rowAt (table st2) (0, 1)) = Some true.
Proof.
  destruct (rowAt (table (Orders.attached defaults Orders.tight)) (0, 0))
    as [row|] eqn:Hrow; [|by vm_compute in Hrow].
  destruct (queryToggle row) as [[ci btn]|] eqn:Hq.
  2:{ vm_compute in Hrow. injection Hrow as <-. by vm_compute in Hq. }
  destruct (rowAt (table (Orders.attached defaults Orders.tight)) (0, 1))
    as [details|] eqn:Hdet; [|by vm_compute in Hdet].
  destruct (toggle_twice (Orders.attached defaults Orders.tight) (0, 0) row ci btn details)
    as (st1 & st2 & H1 & H2 & _ & _ & Hh).
  - intros render Hr. by vm_compute in Hr.
  - exact Hrow.
  - vm_compute in Hrow. by injection Hrow as <-.
  - exact Hq.
  - vm_compute in Hrow. injection Hrow as <-. vm_compute in Hq. by injection Hq as <- <-.
  - exact Hdet.
  - vm_compute in Hdet. by injection Hdet as <-.
  - by exists st1, st2.
Defined.

(** *** [destroy] *)


(** *** [unset] *)

(** X17. [unset] takes the table out of the registry and leaves the other
    registered tables alone, and a second [unset] of the same target changes
    nothing: the controller is gone, so [destroy] does not run again. *)
Theorem unset_unregisters target w :
  _tables (unset target w) !! target = None /\
  (forall other, other ≠ target ->
     _tables (unset target w) !! other = _tables w !! other) /\
  unset target (unset target w) = unset target w.
Proof.
  assert (Hnone : _tables (unset target w) !! target = None).
  { unfold unset. destruct (_tables w !! target) eqn:Ht; [|done].
    cbn [_tables]. apply lookup_delete_eq. }
  split; [done|]. split.
  - intros other Hne. unfold unset. destruct (_tables w !! target); [|done].
    cbn [_tables]. by apply lookup_delete_ne.
  - unfold unset at 1. by rewrite Hnone.
Qed.

Lemma unset_unregisters_witness :
  _tables (unset 7 (set 7 id Orders.page).2) !! 7 = None /\
  unset 7 (unset 7 (set 7 id Orders.page).2) = unset 7 (set 7 id Orders.page).2.
Proof. split; apply unset_unregisters. Defined.

End TeardownFacts.
